(** * QEEG pipeline: band power, channel analysis, annotation, upload loop

    A shallow embedding of [dr_ash_ai_pipeline.py].

    Numbers.  The program computes with IEEE doubles; here every float is
    an exact rational in canonical form ([Qc], Leibniz equality), so
    rounding, infinities and NaN are outside the model.

    Libraries.  [scipy.signal.butter], [scipy.signal.filtfilt] and
    [scipy.signal.welch] are not part of the repository: they are the
    fields of a record [SignalLib], and what a theorem needs to know about
    them is an explicit premise of that theorem.

    Exceptions.  A Python exception is the [Raise] case of [result]; the
    recording handle and the temporary directory live in a [world] that is
    passed explicitly. *)

From Stdlib Require Import QArith Qcanon Qround Field.
From stdpp Require Import base numbers list strings gmap sorting.

Local Open Scope Qc_scope.

(** ** Numbers *)

Definition Qcleb (x y : Qc) : bool := Qle_bool x y.
Definition Qcltb (x y : Qc) : bool := negb (Qle_bool y x).

Definition qc (n : Z) : Qc := Qc_of_Z n.

(** ** Exceptions *)

Inductive exn : Set :=
| ValueError
| ZeroDivisionError
| IndexError
| KeyError
| OSError.

Inductive result (A : Type) : Type :=
| Ok (a : A)
| Raise (e : exn).
Arguments Ok {A} a.
Arguments Raise {A} e.

Global Instance result_ret : MRet result := λ A a, Ok a.
Global Instance result_bind : MBind result := λ A B f m,
  match m with
  | Ok a => f a
  | Raise e => Raise e
  end.
Global Instance result_fmap : FMap result := λ A B f m,
  match m with
  | Ok a => Ok (f a)
  | Raise e => Raise e
  end.

Definition is_ok {A} (m : result A) : bool :=
  match m with Ok _ => true | Raise _ => false end.

(** Division of two Python floats: [a / b]. *)
Definition py_div (a b : Qc) : result Qc :=
  if decide (b = 0) then Raise ZeroDivisionError else Ok (a / b).

(** ** Ordered dictionaries

    A Python [dict] keeps its keys in insertion order; assigning to a key
    that is already present replaces the value and keeps the position. *)

Definition pydict (V : Type) : Type := list (string * V).

Fixpoint dict_set {V} (k : string) (v : V) (d : pydict V) : pydict V :=
  match d with
  | [] => [(k, v)]
  | (k', v') :: d' =>
      if decide (k' = k) then (k, v) :: d' else (k', v') :: dict_set k v d'
  end.

Fixpoint dict_get {V} (k : string) (d : pydict V) : option V :=
  match d with
  | [] => None
  | (k', v') :: d' => if decide (k' = k) then Some v' else dict_get k d'
  end.

Definition dict_keys {V} (d : pydict V) : list string := d.*1.

(** [d[k]] *)
Definition dict_item {V} (k : string) (d : pydict V) : result V :=
  match dict_get k d with
  | Some v => Ok v
  | None => Raise KeyError
  end.

(** [l[i]] for a list and [i >= 0] *)
Definition list_item {A} (l : list A) (i : nat) : result A :=
  match l !! i with
  | Some x => Ok x
  | None => Raise IndexError
  end.

(** ** Constants of the module *)

(** [EEG_BANDS], in the order of the dictionary literal. *)
Definition EEG_BANDS : pydict (Qc * Qc) :=
  [ ("Delta", (qc 1, qc 4));
    ("Theta", (qc 4, qc 8));
    ("Alpha", (qc 8, qc 12));
    ("Beta", (qc 12, qc 30));
    ("High Beta", (qc 30, qc 45)) ]%string.

(** [BRODMANN_MAP]; it is only read, through [.get(ch, [])]. *)
Definition BRODMANN_MAP : gmap string (list string) :=
  list_to_map
    [ ("Fp1", ["BA10"; "BA11"]); ("Fp2", ["BA10"; "BA11"]);
      ("F3", ["BA6"; "BA8"]); ("F4", ["BA6"; "BA8"]);
      ("C3", ["BA1"; "BA2"; "BA3"; "BA4"]);
      ("C4", ["BA1"; "BA2"; "BA3"; "BA4"]);
      ("O1", ["BA17"; "BA18"]); ("O2", ["BA17"; "BA18"]) ]%string.

(** ** NumPy array operations used by the module *)

Definition np_sum (a : list Qc) : Qc := foldr Qcplus 0 a.

(** [np.mean(a)]; of an empty array NumPy returns NaN, here it is 0. *)
Definition np_mean (a : list Qc) : Qc := np_sum a / qc (Z.of_nat (length a)).

(** [a - c] for an array [a] and a scalar [c]. *)
Definition np_sub_scalar (a : list Qc) (c : Qc) : list Qc := (λ v, v - c) <$> a.

(** [freqs >= c] and [freqs <= c]. *)
Definition np_ge (a : list Qc) (c : Qc) : list bool := (λ f, Qcleb c f) <$> a.
Definition np_le (a : list Qc) (c : Qc) : list bool := (λ f, Qcleb f c) <$> a.

Definition np_logical_and (m1 m2 : list bool) : list bool := zip_with andb m1 m2.

(** [a[mask]] for a boolean mask: the mask must be as long as the array. *)
Fixpoint select {A} (a : list A) (mask : list bool) : list A :=
  match a, mask with
  | x :: a', b :: mask' => if b then x :: select a' mask' else select a' mask'
  | _, _ => []
  end.

Definition mask_index {A} (a : list A) (mask : list bool) : result (list A) :=
  if decide (length a = length mask) then Ok (select a mask) else Raise IndexError.

(** [np.diff(x)], that is [x[1:] - x[:-1]]. *)
Definition np_diff (x : list Qc) : list Qc := zip_with Qcminus (tail x) (removelast x).

(** [np.trapz(y, x)]: [(d * (y[1:] + y[:-1]) / 2.0).sum()] with [d = np.diff(x)]. *)
Definition np_trapz (y x : list Qc) : Qc :=
  let d := np_diff x in
  np_sum (zip_with (λ di si, di * si / 2) d (zip_with Qcplus (tail y) (removelast y))).

(** ** The signal-processing library *)

Definition coeffs : Type := list Qc * list Qc.

Record SignalLib : Type := {
  (** [butter(N, [lo, hi], btype="band")] *)
  butter : nat → Qc → Qc → result coeffs;
  (** [filtfilt(b, a, x)] *)
  filtfilt : coeffs → list Qc → result (list Qc);
  (** [welch(x, fs, nperseg=n)], returning [(freqs, psd)] *)
  welch : list Qc → Qc → Qc → result (list Qc * list Qc)
}.

Section Pipeline.

Context (lib : SignalLib).

(** ** [bandpower] *)

(** The body of [bandpower] after the call of [welch]. *)
Definition band_integral (freqs psd : list Qc) (band : Qc * Qc) : result Qc :=
  let idx_band := np_logical_and (np_ge freqs band.1) (np_le freqs band.2) in
  ys ← mask_index psd idx_band;
  xs ← mask_index freqs idx_band;
  Ok (np_trapz ys xs).

Definition bandpower (data : list Qc) (sf : Qc) (band : Qc * Qc) (window_sec : Qc)
  : result Qc :=
  '(freqs, psd) ← welch lib data sf (window_sec * sf);
  band_integral freqs psd band.

(** ** [analyze_edf]: one channel *)

(** Lines 49 to 51: de-meaning, filter design, zero-phase filtering. *)
Definition filter_stage (signal : list Qc) (fs : Qc) : result (list Qc) :=
  let signal := np_sub_scalar signal (np_mean signal) in
  lo ← py_div 1 (fs / 2);
  hi ← py_div (qc 45) (fs / 2);
  ba ← butter lib 4 lo hi;
  filtfilt lib ba signal.

(** [bp / total_power if total_power > 0 else 0]; both operands are NumPy
    scalars, whose division does not raise. *)
Definition relative_power (bp total_power : Qc) : Qc :=
  if Qcltb 0 total_power then bp / total_power else 0.

(** The loop [for band in EEG_BANDS] of lines 55 to 57. *)
Fixpoint band_loop (signal : list Qc) (fs total_power : Qc)
    (bands : list string) (band_powers : pydict Qc) : result (pydict Qc) :=
  match bands with
  | [] => Ok band_powers
  | band :: rest =>
      rng ← dict_item band EEG_BANDS;
      bp ← bandpower signal fs rng 2;
      band_loop signal fs total_power rest
        (dict_set band (relative_power bp total_power) band_powers)
  end.

(** Lines 49 to 57 for one channel: the profile stored under its label. *)
Definition channel_profile (signal : list Qc) (fs : Qc) : result (pydict Qc) :=
  signal ← filter_stage signal fs;
  total_power ← bandpower signal fs (qc 1, qc 45) 2;
  band_loop signal fs total_power (dict_keys EEG_BANDS) [].

End Pipeline.

(** ** Recordings, files and the recording handle *)

Record EdfChannel : Type := {
  ch_label : string;
  ch_fs : Qc;
  ch_samples : list Qc
}.

(** What a file of the temporary directory holds: a well-formed EDF
    recording, or bytes that [pyedflib] cannot read.  [pyedflib] opens no
    file without signals, so the recordings that the code analyses have
    at least one channel; the list of channels is not restricted here. *)
Inductive content : Type :=
| EdfData (chans : list EdfChannel)
| RawData (bytes : string).

Record world : Type := {
  files : gmap string content;
  (** the paths of the [EdfReader] handles that are open *)
  open_readers : list string
}.

Record EdfReader : Type := {
  reader_path : string;
  reader_channels : list EdfChannel
}.

Definition signals_in_file (f : EdfReader) : nat := length (reader_channels f).
Definition getSignalLabels (f : EdfReader) : list string := ch_label <$> reader_channels f.
Definition getSampleFrequency (f : EdfReader) (i : nat) : Qc :=
  match reader_channels f !! i with
  | Some c => ch_fs c
  | None => 0
  end.
Definition readSignal (f : EdfReader) (i : nat) : result (list Qc) :=
  match reader_channels f !! i with
  | Some c => Ok (ch_samples c)
  | None => Raise IndexError
  end.

(** [pyedflib.EdfReader(file_path)] *)
Definition open_edf (file_path : string) (w : world) : world * result EdfReader :=
  match files w !! file_path with
  | Some (EdfData chans) =>
      ( {| files := files w; open_readers := file_path :: open_readers w |},
        Ok {| reader_path := file_path; reader_channels := chans |} )
  | _ => (w, Raise OSError)
  end.

Fixpoint remove_first (p : string) (l : list string) : list string :=
  match l with
  | [] => []
  | q :: l' => if decide (q = p) then l' else q :: remove_first p l'
  end.

(** [f.close()] *)
Definition close_edf (f : EdfReader) (w : world) : world :=
  {| files := files w; open_readers := remove_first (reader_path f) (open_readers w) |}.

Definition AnalysisResult : Type := pydict (pydict Qc).

Section Orchestrator.

Context (lib : SignalLib).

(** The loop [for i in range(n_channels)] of lines 46 to 59. *)
Fixpoint channel_loop (f : EdfReader) (labels : list string) (fs_list : list Qc)
    (idxs : list nat) (results : AnalysisResult) : result AnalysisResult :=
  match idxs with
  | [] => Ok results
  | i :: rest =>
      signal ← readSignal f i;
      fs ← list_item fs_list i;
      band_powers ← channel_profile lib signal fs;
      label ← list_item labels i;
      channel_loop f labels fs_list rest (dict_set label band_powers results)
  end.

(** [analyze_edf]: an exception leaves the function where it is raised, so
    [f.close()] runs only after the loop has finished. *)
Definition analyze_edf (file_path : string) (w : world) : world * result AnalysisResult :=
  match open_edf file_path w with
  | (w1, Raise e) => (w1, Raise e)
  | (w1, Ok f) =>
      let n_channels := signals_in_file f in
      let labels := getSignalLabels f in
      let fs_list := getSampleFrequency f <$> seq 0 n_channels in
      match channel_loop f labels fs_list (seq 0 n_channels) [] with
      | Raise e => (w1, Raise e)
      | Ok results => (close_edf f w1, Ok results)
      end
  end.

End Orchestrator.

(** ** [generate_reports]: the auto-interpretation loop *)

Definition up_arrow : string :=
  String (Ascii.ascii_of_nat 226) (String (Ascii.ascii_of_nat 134)
    (String (Ascii.ascii_of_nat 145) EmptyString)).
Definition right_arrow : string :=
  String (Ascii.ascii_of_nat 226) (String (Ascii.ascii_of_nat 134)
    (String (Ascii.ascii_of_nat 146) EmptyString)).

(** A document is the sequence of the texts given to [multi_cell]. *)
Definition document : Type := list string.
Definition multi_cell (pdf : document) (txt : string) : document := pdf ++ [txt].

Definition clinical_line (band ch : string) (bmap : list string) : string :=
  up_arrow +:+ " " +:+ band +:+ " at " +:+ ch +:+ " " +:+ right_arrow
    +:+ " Possible dysfunction in " +:+ String.concat ", " bmap.
Definition patient_line (band ch : string) (bmap : list string) : string :=
  "We found higher " +:+ band +:+ " activity in " +:+ ch +:+ ", linked to "
    +:+ String.concat ", " bmap +:+ ".".

Definition threshold : Qc := Q2Qc (3 # 10).

(** [for band, val in bands.items()] of lines 117 to 123. *)
Fixpoint interpret_bands (ch : string) (bands : pydict Qc)
    (docs : document * document) : document * document :=
  match bands with
  | [] => docs
  | (band, val) :: rest =>
      if Qcltb threshold val then
        let bmap := default [] (BRODMANN_MAP !! ch) in
        interpret_bands ch rest
          (multi_cell docs.1 (clinical_line band ch bmap),
           multi_cell docs.2 (patient_line band ch bmap))
      else interpret_bands ch rest docs
  end.

(** [for ch, bands in edf_results.items()] of line 116. *)
Fixpoint auto_interpretation (edf_results : AnalysisResult)
    (docs : document * document) : document * document :=
  match edf_results with
  | [] => docs
  | (ch, bands) :: rest => auto_interpretation rest (interpret_bands ch bands docs)
  end.

(** ** [main]: the loop over the uploaded files *)

Record upload : Type := {
  name : string;
  (** what [file.read()] returns *)
  data : content
}.

Definition endswith (s suffix : string) : bool :=
  bool_decide (String.length suffix ≤ String.length s)%nat
  && String.eqb
       (String.substring (String.length s - String.length suffix) (String.length suffix) s)
       suffix.

Definition startswith (s pre : string) : bool := String.prefix pre s.

(** [os.path.join(a, b)] on a POSIX system. *)
Definition os_path_join (a b : string) : string :=
  if startswith b "/" then b
  else if String.eqb a EmptyString || endswith a "/" then a +:+ b
  else a +:+ "/" +:+ b.

Definition write_file (path : string) (c : content) (w : world) : world :=
  {| files := <[path := c]> (files w); open_readers := open_readers w |}.

Section Main.

Context (lib : SignalLib).
(** [extract_text(path)]: the text that the document readers find in a file. *)
Context (extract_text : string → world → result string).

(** Lines 162 to 170, from the state [(edf_results, extracted_texts)]. *)
Fixpoint upload_loop (tmpdir : string) (uploads : list upload)
    (edf_results : AnalysisResult) (extracted_texts : pydict string) (w : world)
  : world * result (AnalysisResult * pydict string) :=
  match uploads with
  | [] => (w, Ok (edf_results, extracted_texts))
  | file :: rest =>
      let path := os_path_join tmpdir (name file) in
      let w := write_file path (data file) w in
      if endswith (name file) ".edf" then
        match analyze_edf lib path w with
        | (w, Raise e) => (w, Raise e)
        | (w, Ok r) => upload_loop tmpdir rest r extracted_texts w
        end
      else
        match extract_text path w with
        | Raise e => (w, Raise e)
        | Ok t => upload_loop tmpdir rest edf_results (dict_set (name file) t extracted_texts) w
        end
  end.

(** Lines 160 to 173: what [generate_reports] receives, if it is called. *)
Definition main_reports_input (tmpdir : string) (uploads : list upload) (w : world)
  : world * result (option (AnalysisResult * pydict string)) :=
  match upload_loop tmpdir uploads [] [] w with
  | (w, Raise e) => (w, Raise e)
  | (w, Ok (edf_results, extracted_texts)) =>
      (w, Ok (match edf_results with
              | [] => None
              | _ => Some (edf_results, extracted_texts)
              end))
  end.

End Main.

(** ** An executable instance of the library interface

    It validates its arguments the way scipy documents it and is otherwise
    as simple as possible: the designed filter is the identity
    ([b = a = [1]]), and the spectrum on scipy's frequency grid is the
    squared samples over the sample rate.  It serves to run the pipeline
    on concrete recordings. *)

Module SampleLib.

(** scipy rejects a digital corner frequency outside the open interval (0, 1). *)
Definition valid_corner (x : Qc) : bool := Qcltb 0 x && Qcltb x 1.

Definition butter (N : nat) (lo hi : Qc) : result coeffs :=
  if valid_corner lo && valid_corner hi then Ok ([1], [1]) else Raise ValueError.

(** scipy pads with [3 * max(len(a), len(b))] samples at each end and
    rejects a signal that is not longer than that. *)
Definition filtfilt (ba : coeffs) (x : list Qc) : result (list Qc) :=
  if bool_decide (3 * (length ba.1 `max` length ba.2) < length x)%nat
  then Ok x else Raise ValueError.

(** [int(nperseg)], reduced to the length of the signal when it is larger. *)
Definition segment_length (x : list Qc) (nperseg : Qc) : nat :=
  Z.to_nat (Qfloor nperseg) `min` length x.

(** [rfftfreq(n, 1/fs)] *)
Definition rfftfreq (n : nat) (fs : Qc) : list Qc :=
  (λ k, qc (Z.of_nat k) * fs / qc (Z.of_nat n)) <$> seq 0 (n / 2 + 1).

Definition welch (x : list Qc) (fs nperseg : Qc) : result (list Qc * list Qc) :=
  match x with
  | [] => Ok ([], [])
  | _ =>
      let n := segment_length x nperseg in
      if decide (n = 0)%nat then Raise ValueError
      else Ok (rfftfreq n fs, (λ v, v * v / fs) <$> take (n / 2 + 1) x)
  end.

Definition lib : SignalLib := Build_SignalLib butter filtfilt welch.

End SampleLib.

(** ** The specification's formulations *)

(** A bin [f] belongs to [band] when [band.low <= f <= band.high]. *)
Definition in_band (band : Qc * Qc) (f : Qc) : Prop := band.1 ≤ f ∧ f ≤ band.2.

Global Instance in_band_dec band f : Decision (in_band band f).
Proof. unfold in_band. apply _. Defined.

(** The bins of a spectrum, as points (frequency, value), that a band selects. *)
Definition selected_bins (freqs psd : list Qc) (band : Qc * Qc) : list (Qc * Qc) :=
  filter (λ p, in_band band p.1) (zip freqs psd).

(** The trapezoidal rule over a sequence of points. *)
Fixpoint trapezoid_rule (pts : list (Qc * Qc)) : Qc :=
  match pts with
  | [] => 0
  | (x0, y0) :: rest =>
      match rest with
      | [] => 0
      | (x1, y1) :: _ => (x1 - x0) * (y0 + y1) / 2 + trapezoid_rule rest
      end
  end.

(** A spectrum as the estimator delivers it: bins in ascending order,
    values that are not negative. *)
Definition ascending (freqs : list Qc) : Prop := StronglySorted Qcle freqs.
Definition nonnegative (psd : list Qc) : Prop := Forall (Qcle 0) psd.

Definition pts_sorted (pts : list (Qc * Qc)) : Prop :=
  StronglySorted (λ p q : Qc * Qc, p.1 ≤ q.1) pts.
Definition pts_nonneg (pts : list (Qc * Qc)) : Prop :=
  Forall (λ p : Qc * Qc, 0 ≤ p.2) pts.

(** The integral that [bandpower] returns for a spectrum [(freqs, psd)]. *)
Definition band_power_of (freqs psd : list Qc) (band : Qc * Qc) : Qc :=
  trapezoid_rule (selected_bins freqs psd band).

(** The profile of a channel whose filtered signal has the spectrum
    [(freqs, psd)]: for each band of the registry, in its order, the band
    power over the broadband power, or 0. *)
Definition profile_of (freqs psd : list Qc) : pydict Qc :=
  (λ nb : string * (Qc * Qc),
     (nb.1, relative_power (band_power_of freqs psd nb.2)
                           (band_power_of freqs psd (qc 1, qc 45)))) <$> EEG_BANDS.

(** The channel loop read as a fold over the channels of the recording. *)
Fixpoint profiles_fold (lib : SignalLib) (chans : list EdfChannel)
    (results : AnalysisResult) : result AnalysisResult :=
  match chans with
  | [] => Ok results
  | c :: rest =>
      band_powers ← channel_profile lib (ch_samples c) (ch_fs c);
      profiles_fold lib rest (dict_set (ch_label c) band_powers results)
  end.

(** The channels of a recording that carry the label [l]. *)
Definition labelled (l : string) (chans : list EdfChannel) : list EdfChannel :=
  filter (λ c, ch_label c = l) chans.

(** ** Sample inputs *)

(** Thirty-two samples; at 100 Hz the bins are 3.125 Hz apart. *)
Definition sig32 : list Qc := (λ k, qc (Z.of_nat (k * 7 `mod` 11) - 5)) <$> seq 0 32.
Definition flat32 : list Qc := replicate 32 (qc 7).

Definition chan_ok : EdfChannel :=
  {| ch_label := "C3"; ch_fs := qc 100; ch_samples := sig32 |}.
Definition chan_flat : EdfChannel :=
  {| ch_label := "O1"; ch_fs := qc 100; ch_samples := flat32 |}.
(** 50 Hz: the Nyquist frequency, 25 Hz, is below the 45 Hz corner. *)
Definition chan_slow : EdfChannel :=
  {| ch_label := "Fp1"; ch_fs := qc 50; ch_samples := sig32 |}.

Definition world_with (path : string) (chans : list EdfChannel) : world :=
  {| files := {[ path := EdfData chans ]}; open_readers := [] |}.

(** A profile with the keys of the registry, in its order. *)
Definition registry_profile (profile : pydict Qc) : Prop :=
  dict_keys profile = dict_keys EEG_BANDS.

(** An annotation event: channel, band, regions. *)
Definition annotation : Type := string * string * list string.

(** The Region Annotator: the regions of a channel, none if it is unmapped. *)
Definition regionsFor (ch : string) : list string := default [] (BRODMANN_MAP !! ch).

(** The annotations of a result: channels in the order of the result,
    bands in the order of the registry, one event for each pair whose
    relative power exceeds the threshold. *)
Definition annotations (results : AnalysisResult) : list annotation :=
  '(ch, profile) ← results;
  band ← dict_keys EEG_BANDS;
  match dict_get band profile with
  | Some v => if decide (threshold < v) then [(ch, band, regionsFor ch)] else []
  | None => []
  end.

Definition clinical_text (a : annotation) : string := clinical_line a.1.2 a.1.1 a.2.
Definition patient_text (a : annotation) : string := patient_line a.1.2 a.1.1 a.2.

(** The uploads of a batch that are recordings, and the last of them. *)
Definition is_edf (u : upload) : Prop := endswith (name u) ".edf" = true.

Global Instance is_edf_dec u : Decision (is_edf u).
Proof. unfold is_edf. apply _. Defined.

Definition last_edf (uploads : list upload) : option upload :=
  last (filter is_edf uploads).

Definition upload_a : upload := {| name := "a.edf"; data := EdfData [chan_ok] |}.
Definition upload_notes : upload := {| name := "notes.csv"; data := RawData "x,y" |}.
Definition upload_b : upload := {| name := "b.edf"; data := EdfData [chan_flat; chan_ok] |}.
Definition empty_world : world := {| files := ∅; open_readers := [] |}.

(** ** What scipy documents about the library functions *)

(** A digital corner frequency is valid when it lies strictly between 0
    and 1 (the Nyquist frequency); [butter] raises [ValueError] otherwise. *)
Definition valid_corner (x : Qc) : Prop := 0 < x ∧ x < 1.


(** [welch] warns and uses the whole signal as the one segment when
    [nperseg] is larger than the signal. *)
Definition welch_reduces_segment (lib : SignalLib) : Prop :=
  ∀ x fs n, qc (Z.of_nat (length x)) < n →
    welch lib x fs n = welch lib x fs (qc (Z.of_nat (length x))).

(** [g * x] for a scalar [g] and an array [x]. *)
Definition scale (g : Qc) (x : list Qc) : list Qc := Qcmult g <$> x.



(** ** Further formulations: offsets, consecutive bins, separated bands *)

(** [x + c] for an array [x] and a scalar [c]. *)
Definition offset (c : Qc) (x : list Qc) : list Qc := (λ v, v + c) <$> x.

(** Line 49: the signal less its mean. *)
Definition demean (signal : list Qc) : list Qc := np_sub_scalar signal (np_mean signal).

(** The trapezoid between two points. *)
Definition area (p q : Qc * Qc) : Qc := (q.1 - p.1) * (p.2 + q.2) / 2.

(** The trapezoids between consecutive points that both lie in the band. *)
Fixpoint inner_sum (band : Qc * Qc) (pts : list (Qc * Qc)) : Qc :=
  match pts with
  | [] => 0
  | p :: rest =>
      match rest with
      | [] => 0
      | q :: _ =>
          (if decide (in_band band p.1 ∧ in_band band q.1) then area p q else 0)
          + inner_sum band rest
      end
  end.

(** Bands in ascending order that overlap at most in an end point. *)
Definition separated (bands : list (Qc * Qc)) : Prop :=
  StronglySorted (λ b1 b2 : Qc * Qc, b1.2 ≤ b2.1) bands.

(** Bands inside a wider band. *)
Definition within (broad : Qc * Qc) (bands : list (Qc * Qc)) : Prop :=
  Forall (λ b : Qc * Qc, broad.1 ≤ b.1 ∧ b.2 ≤ broad.2) bands.

(** The distinct elements of a list, each at its first occurrence. *)
Fixpoint distinct_from (seen l : list string) : list string :=
  match l with
  | [] => []
  | x :: l' =>
      if decide (x ∈ seen) then distinct_from seen l'
      else x :: distinct_from (seen ++ [x]) l'
  end.
Definition first_occurrences (l : list string) : list string := distinct_from [] l.





(** The uploads of a batch that are handed to [extract_text]. *)
Definition documents (uploads : list upload) : list upload :=
  filter (λ u, ¬ is_edf u) uploads.

(** ** [generate_headmap] and the chart loop of [generate_reports] *)

(** What the [matplotlib] calls of [generate_headmap] draw and save. *)
Record figure : Type := {
  (** [plt.bar(range(len(values)), values)] *)
  fig_bars : list (nat * Qc);
  (** [plt.xticks(range(len(values)), list(results.keys()))] *)
  fig_xticks : list (nat * string);
  fig_ylabel : string;
  fig_title : string;
  (** [plt.savefig(save_path)] *)
  fig_path : string
}.

(** [[results[ch][band] for ch in results]], over the keys [chs]. *)
Fixpoint band_values (results : AnalysisResult) (chs : list string) (band : string)
  : result (list Qc) :=
  match chs with
  | [] => Ok []
  | ch :: rest =>
      profile ← dict_item ch results;
      v ← dict_item band profile;
      vs ← band_values results rest band;
      Ok (v :: vs)
  end.

Definition generate_headmap (results : AnalysisResult) (band save_path : string)
  : result figure :=
  values ← band_values results (dict_keys results) band;
  Ok {| fig_bars := zip (seq 0 (length values)) values;
        fig_xticks := zip (seq 0 (length values)) (dict_keys results);
        fig_ylabel := "Relative Power";
        fig_title := band +:+ " Distribution";
        fig_path := save_path |}.

(** Lines 135 to 139 of [generate_reports]: one chart for each band of the
    registry; its path is the image placed in both documents. *)
Fixpoint headmap_loop (edf_results : AnalysisResult) (output_dir : string)
    (bands : list string) : result (list figure) :=
  match bands with
  | [] => Ok []
  | band :: rest =>
      let path := os_path_join output_dir (band +:+ "_map.png") in
      fig ← generate_headmap edf_results band path;
      figs ← headmap_loop edf_results output_dir rest;
      Ok (fig :: figs)
  end.


(** What [os.path.join] puts before a relative second component. *)
Definition path_prefix (dir : string) : string :=
  if String.eqb dir EmptyString || endswith dir "/" then dir else dir +:+ "/".

(** ** [extract_text] *)

(** The document readers that [extract_text] calls on a path. *)
Record DocReaders : Type := {
  (** the pages of [pdfplumber.open(path)], each with what its
      [extract_text()] returns (a string or [None]) *)
  pdf_pages : string → world → result (list (option string));
  (** the [text] of the paragraphs of [docx.Document(path)] *)
  docx_paragraphs : string → world → result (list string);
  (** [pd.read_csv(path).to_string()] *)
  csv_to_string : string → world → result string;
  (** [reader.readtext(path, detail=0)] *)
  ocr_readtext : string → world → result (list string)
}.

Definition newline : string := String (Ascii.ascii_of_nat 10) EmptyString.

(** [s.lower()].  Strings are UTF-8 bytes here; only the bytes of the
    letters A to Z change, which is what decides whether the lowered
    string ends with one of the ASCII suffixes below. *)
Definition ascii_lower (c : Ascii.ascii) : Ascii.ascii :=
  let n := Ascii.nat_of_ascii c in
  if (65 <=? n)%nat && (n <=? 90)%nat then Ascii.ascii_of_nat (n + 32) else c.

Fixpoint str_lower (s : string) : string :=
  match s with
  | EmptyString => EmptyString
  | String c s' => String (ascii_lower c) (str_lower s')
  end.

Definition extract_text (rd : DocReaders) (file_path : string) (w : world) : result string :=
  if endswith file_path ".pdf" then
    pages ← pdf_pages rd file_path w;
    Ok (foldl (λ text page, text +:+ default EmptyString page) EmptyString pages)
  else if endswith file_path ".docx" then
    paras ← docx_paragraphs rd file_path w;
    Ok (foldl (λ text para, text +:+ (para +:+ newline)) EmptyString paras)
  else if endswith file_path ".csv" then
    csv_to_string rd file_path w
  else if endswith (str_lower file_path) ".png"
          || endswith (str_lower file_path) ".jpg"
          || endswith (str_lower file_path) ".jpeg" then
    results ← ocr_readtext rd file_path w;
    Ok (String.concat " " results)
  else Ok EmptyString.

Definition sample_readers : DocReaders :=
  {| pdf_pages := λ _ _, Ok [Some "page one"; None; Some "page three"]%string;
     docx_paragraphs := λ _ _, Ok ["first"; "second"]%string;
     csv_to_string := λ _ _, Ok "a b"%string;
     ocr_readtext := λ _ _, Ok ["scanned"; "words"]%string |}.




(** ** The error kinds of the specification *)



(** [idx_band] of line 35, and what [psd[idx_band]] keeps. *)
Definition idx_band (freqs : list Qc) (band : Qc * Qc) : list bool :=
  np_logical_and (np_ge freqs band.1) (np_le freqs band.2).

(** * Theorems *)

(** ** Reflection of the comparisons *)

Lemma Qcleb_le (x y : Qc) : Qcleb x y = true ↔ x ≤ y.
Proof. unfold Qcleb, Qcle. apply Qle_bool_iff. Qed.

Lemma Qcltb_lt (x y : Qc) : Qcltb x y = true ↔ x < y.
Proof.
  unfold Qcltb. rewrite negb_true_iff, <- not_true_iff_false.
  rewrite Qle_bool_iff. split.
  - intros H. apply Qcnot_le_lt. exact H.
  - intros H. apply Qclt_not_le. exact H.
Qed.

Lemma Qcltb_nlt (x y : Qc) : Qcltb x y = false ↔ y ≤ x.
Proof.
  rewrite <- not_true_iff_false, Qcltb_lt. split.
  - apply Qcnot_lt_le.
  - apply Qcle_not_lt.
Qed.

(** ** Band power: masks and [np.trapz] against the pointwise formulation *)

Lemma select_zip {A B} (xs : list A) (ys : list B) (m : list bool) :
  zip (select xs m) (select ys m) = select (zip xs ys) m.
Proof.
  revert ys m. induction xs as [|x xs IH]; intros [|y ys] [|b m]; simpl; try done.
  - destruct b; simpl; by destruct (select xs m).
  - destruct b; simpl; by rewrite IH.
Qed.

Lemma select_band_mask (freqs psd : list Qc) (band : Qc * Qc) :
  select (zip freqs psd) (np_logical_and (np_ge freqs band.1) (np_le freqs band.2))
  = selected_bins freqs psd band.
Proof.
  unfold selected_bins. revert psd.
  induction freqs as [|f freqs IH]; intros [|p psd]; simpl; try done.
  rewrite filter_cons. simpl. rewrite IH.
  destruct (Qcleb band.1 f) eqn:H1; destruct (Qcleb f band.2) eqn:H2; simpl;
    destruct (decide (in_band band f)) as [[Ha Hb]|Hn]; try done.
  - exfalso. apply Hn. split; by apply Qcleb_le.
  - apply Qcleb_le in Hb. congruence.
  - apply Qcleb_le in Ha. congruence.
  - apply Qcleb_le in Ha. congruence.
Qed.

Lemma length_band_mask (freqs : list Qc) (band : Qc * Qc) :
  length (np_logical_and (np_ge freqs band.1) (np_le freqs band.2)) = length freqs.
Proof.
  unfold np_logical_and, np_ge, np_le.
  rewrite length_zip_with, !length_fmap. lia.
Qed.

Lemma length_select {A B} (xs : list A) (ys : list B) (m : list bool) :
  length xs = length ys → length (select xs m) = length (select ys m).
Proof.
  revert ys m. induction xs as [|x xs IH]; intros [|y ys] [|b m] H; simpl in *; try done.
  destruct b; simpl; auto.
Qed.

Lemma np_trapz_cons2 (y0 y1 x0 x1 : Qc) (ys xs : list Qc) :
  np_trapz (y0 :: y1 :: ys) (x0 :: x1 :: xs)
  = (x1 - x0) * (y0 + y1) / 2 + np_trapz (y1 :: ys) (x1 :: xs).
Proof.
  unfold np_trapz, np_diff. simpl. f_equal.
  unfold Qcdiv. f_equal. ring.
Qed.

Lemma np_trapz_points (ys xs : list Qc) :
  length xs = length ys → np_trapz ys xs = trapezoid_rule (zip xs ys).
Proof.
  revert ys. induction xs as [|x0 xs IH]; intros [|y0 ys] H; simpl in *; try done.
  destruct xs as [|x1 xs], ys as [|y1 ys]; simpl in *; try done.
  rewrite np_trapz_cons2. f_equal. apply (IH (y1 :: ys)). simpl. lia.
Qed.

Lemma band_integral_points (freqs psd : list Qc) (band : Qc * Qc) :
  length freqs = length psd →
  band_integral freqs psd band = Ok (trapezoid_rule (selected_bins freqs psd band)).
Proof.
  intros Hlen. unfold band_integral, mask_index.
  rewrite length_band_mask.
  destruct (decide (length psd = length freqs)) as [_|Hn]; [|congruence].
  destruct (decide (length freqs = length freqs)) as [_|Hn]; [|congruence].
  simpl. f_equal.
  rewrite np_trapz_points by (by apply length_select).
  by rewrite select_zip, select_band_mask.
Qed.

(** C6.  Whenever [welch] returns a spectrum (as many values as bins),
    [bandpower] returns the trapezoidal-rule integral over the selected
    bins, and a point is selected exactly when it is a bin of the spectrum
    whose frequency [f] satisfies [band.low <= f <= band.high], both ends
    included. *)
Theorem bandpower_selects_and_integrates (lib : SignalLib) (data : list Qc)
    (sf window_sec : Qc) (band : Qc * Qc) (freqs psd : list Qc) :
  welch lib data sf (window_sec * sf) = Ok (freqs, psd) →
  length freqs = length psd →
  bandpower lib data sf band window_sec
    = Ok (trapezoid_rule (selected_bins freqs psd band))
  ∧ ∀ f p, (f, p) ∈ selected_bins freqs psd band
           ↔ (f, p) ∈ zip freqs psd ∧ band.1 ≤ f ∧ f ≤ band.2.
Proof.
  intros Hw Hlen. split.
  - unfold bandpower. rewrite Hw. simpl. by apply band_integral_points.
  - intros f p. unfold selected_bins. rewrite list_elem_of_filter. simpl.
    unfold in_band. tauto.
Qed.

(** C6, at a concrete signal: thirty-two samples at 100 Hz, the band 12 to 30 Hz. *)
Lemma bandpower_selects_and_integrates_witness :
  let freqs := SampleLib.rfftfreq 32 (qc 100) in
  let psd := (λ v, v * v / qc 100) <$> take 17 sig32 in
  bandpower SampleLib.lib sig32 (qc 100) (qc 12, qc 30) 2
    = Ok (trapezoid_rule (selected_bins freqs psd (qc 12, qc 30)))
  ∧ ∀ f p, (f, p) ∈ selected_bins freqs psd (qc 12, qc 30)
           ↔ (f, p) ∈ zip freqs psd ∧ qc 12 ≤ f ∧ f ≤ qc 30.
Proof.
  intros freqs psd.
  apply (bandpower_selects_and_integrates SampleLib.lib sig32 (qc 100) 2
           (qc 12, qc 30) freqs psd); reflexivity.
Defined.

(** ** Dictionaries *)

Lemma dict_get_set_eq {V} (k : string) (v : V) (d : pydict V) :
  dict_get k (dict_set k v d) = Some v.
Proof.
  induction d as [|[k' v'] d IH]; simpl.
  - by rewrite decide_True.
  - destruct (decide (k' = k)) as [->|Hne]; simpl.
    + by rewrite decide_True.
    + by rewrite decide_False.
Qed.

Lemma dict_get_set_ne {V} (k l : string) (v : V) (d : pydict V) :
  k ≠ l → dict_get l (dict_set k v d) = dict_get l d.
Proof.
  intros Hkl. induction d as [|[k' v'] d IH]; simpl.
  - by rewrite decide_False.
  - destruct (decide (k' = k)) as [->|Hne]; simpl.
    + by rewrite !decide_False.
    + destruct (decide (k' = l)); [done|apply IH].
Qed.

(** ** One channel *)

Lemma bandpower_points (lib : SignalLib) (data : list Qc) (sf w : Qc)
    (band : Qc * Qc) (freqs psd : list Qc) :
  welch lib data sf (w * sf) = Ok (freqs, psd) →
  length freqs = length psd →
  bandpower lib data sf band w = Ok (band_power_of freqs psd band).
Proof.
  intros Hw Hl. unfold bandpower. rewrite Hw. simpl. by apply band_integral_points.
Qed.

(** A band power that is computed exposes the spectrum it was computed
    from, and that spectrum has as many values as bins. *)
Lemma bandpower_inv (lib : SignalLib) (data : list Qc) (sf w : Qc)
    (band : Qc * Qc) (t : Qc) :
  bandpower lib data sf band w = Ok t →
  ∃ freqs psd, welch lib data sf (w * sf) = Ok (freqs, psd)
               ∧ length freqs = length psd
               ∧ t = band_power_of freqs psd band.
Proof.
  unfold bandpower. destruct (welch lib data sf (w * sf)) as [[freqs psd]|e]; simpl; [|done].
  intros H. exists freqs, psd. split; [done|].
  assert (length freqs = length psd) as Hl.
  { unfold band_integral, mask_index in H. rewrite length_band_mask in H.
    destruct (decide (length psd = length freqs)); [done|]. by simpl in H. }
  split; [done|]. rewrite band_integral_points in H by done. by injection H.
Qed.

Lemma channel_profile_eq (lib : SignalLib) (signal : list Qc) (fs : Qc)
    (sig freqs psd : list Qc) :
  filter_stage lib signal fs = Ok sig →
  welch lib sig fs (2 * fs) = Ok (freqs, psd) →
  length freqs = length psd →
  channel_profile lib signal fs = Ok (profile_of freqs psd).
Proof.
  intros Hf Hw Hl. unfold channel_profile. rewrite Hf. simpl.
  repeat (rewrite (bandpower_points _ _ _ _ _ _ _ Hw Hl); simpl).
  reflexivity.
Qed.

Lemma relative_power_pos (bp total : Qc) : 0 < total → relative_power bp total = bp / total.
Proof. intros H. unfold relative_power. apply Qcltb_lt in H. by rewrite H. Qed.

Lemma relative_power_nonpos (bp total : Qc) : total ≤ 0 → relative_power bp total = 0.
Proof. intros H. unfold relative_power. apply Qcltb_nlt in H. by rewrite H. Qed.

Lemma profile_of_get (freqs psd : list Qc) (name : string) (band : Qc * Qc) :
  dict_get name EEG_BANDS = Some band →
  dict_get name (profile_of freqs psd)
  = Some (relative_power (band_power_of freqs psd band)
                         (band_power_of freqs psd (qc 1, qc 45))).
Proof.
  unfold profile_of, EEG_BANDS. simpl.
  repeat (case_decide; [intros [= <-]; reflexivity|]). done.
Qed.

(** ** The channel loop *)

Lemma list_item_lookup {A} (l : list A) (i : nat) (x : A) :
  l !! i = Some x → list_item l i = Ok x.
Proof. intros H. unfold list_item. by rewrite H. Qed.

Lemma channel_loop_fold (lib : SignalLib) (f : EdfReader)
    (pre chans : list EdfChannel) (acc : AnalysisResult) :
  reader_channels f = pre ++ chans →
  channel_loop lib f (getSignalLabels f)
    (getSampleFrequency f <$> seq 0 (signals_in_file f))
    (seq (length pre) (length chans)) acc
  = profiles_fold lib chans acc.
Proof.
  revert pre acc. induction chans as [|c chans IH]; intros pre acc Hf; simpl; [done|].
  assert (reader_channels f !! length pre = Some c) as Hc.
  { rewrite Hf. by rewrite list_lookup_middle. }
  assert (length pre < signals_in_file f)%nat as Hlt.
  { unfold signals_in_file. apply lookup_lt_Some in Hc. done. }
  assert (list_item (getSampleFrequency f <$> seq 0 (signals_in_file f)) (length pre)
          = Ok (ch_fs c)) as Hfs.
  { apply list_item_lookup. rewrite list_lookup_fmap, lookup_seq_lt by done. simpl.
    unfold getSampleFrequency. by rewrite Hc. }
  assert (list_item (getSignalLabels f) (length pre) = Ok (ch_label c)) as Hlab.
  { apply list_item_lookup. unfold getSignalLabels. by rewrite list_lookup_fmap, Hc. }
  unfold readSignal at 1. rewrite Hc. simpl. rewrite Hfs. simpl.
  destruct (channel_profile lib (ch_samples c) (ch_fs c)) as [p|e]; simpl; [|done].
  rewrite Hlab. simpl.
  specialize (IH (pre ++ [c]) (dict_set (ch_label c) p acc)).
  rewrite length_app in IH. simpl in IH. rewrite Nat.add_1_r in IH.
  apply IH. by rewrite <- app_assoc.
Qed.

Lemma analyze_edf_fold (lib : SignalLib) (path : string) (w : world)
    (chans : list EdfChannel) :
  files w !! path = Some (EdfData chans) →
  (analyze_edf lib path w).2 = profiles_fold lib chans [].
Proof.
  intros Hp. unfold analyze_edf, open_edf. rewrite Hp.
  pose proof (channel_loop_fold lib
    {| reader_path := path; reader_channels := chans |} [] chans [] eq_refl) as H.
  simpl in H. unfold signals_in_file at 2. simpl. rewrite H.
  by destruct (profiles_fold lib chans []).
Qed.

Lemma profiles_fold_ok (lib : SignalLib) (chans : list EdfChannel) (acc : AnalysisResult) :
  (∀ c, c ∈ chans → is_ok (channel_profile lib (ch_samples c) (ch_fs c)) = true) →
  ∃ results, profiles_fold lib chans acc = Ok results.
Proof.
  revert acc. induction chans as [|c chans IH]; intros acc H; simpl; [by eexists|].
  pose proof (H c (list_elem_of_here _ _)) as Hc.
  destruct (channel_profile lib (ch_samples c) (ch_fs c)) as [p|e]; [|done]. simpl.
  apply IH. intros c' Hc'. apply H. by apply list_elem_of_further.
Qed.

(** What the result holds under a label: the profile of the last channel
    of the recording that carries it. *)
Lemma profiles_fold_get (lib : SignalLib) (chans : list EdfChannel)
    (acc results : AnalysisResult) (l : string) :
  profiles_fold lib chans acc = Ok results →
  match last (labelled l chans) with
  | Some c => ∃ p, channel_profile lib (ch_samples c) (ch_fs c) = Ok p
                   ∧ dict_get l results = Some p
  | None => dict_get l results = dict_get l acc
  end.
Proof.
  revert acc. induction chans as [|c chans IH]; intros acc; simpl.
  - by intros [= ->].
  - destruct (channel_profile lib (ch_samples c) (ch_fs c)) as [p|e] eqn:Hp; simpl; [|done].
    intros H. specialize (IH _ H). unfold labelled in *. rewrite filter_cons.
    destruct (decide (ch_label c = l)) as [Hl|Hl].
    + destruct (filter _ chans) as [|c1 cs] eqn:Hfil; simpl in *.
      * exists p. split; [done|]. rewrite IH, <- Hl. apply dict_get_set_eq.
      * destruct (last (c1 :: cs)) eqn:Hlast; [done|].
        by apply last_None in Hlast.
    + destruct (last (filter _ chans)); [done|].
      rewrite IH. by apply dict_get_set_ne.
Qed.

Lemma channel_profile_of_steps (lib : SignalLib) (signal : list Qc) (fs : Qc)
    (sig : list Qc) (total : Qc) :
  filter_stage lib signal fs = Ok sig →
  bandpower lib sig fs (qc 1, qc 45) 2 = Ok total →
  ∃ freqs psd, welch lib sig fs (2 * fs) = Ok (freqs, psd)
               ∧ length freqs = length psd
               ∧ total = band_power_of freqs psd (qc 1, qc 45)
               ∧ channel_profile lib signal fs = Ok (profile_of freqs psd).
Proof.
  intros Hf Hb. destruct (bandpower_inv _ _ _ _ _ _ Hb) as (freqs & psd & Hw & Hl & Ht).
  exists freqs, psd. repeat split; try done. by eapply channel_profile_eq.
Qed.

Lemma last_labelled (chans : list EdfChannel) (c0 : EdfChannel) :
  c0 ∈ chans →
  ∃ c, last (labelled (ch_label c0) chans) = Some c ∧ c ∈ chans ∧ ch_label c = ch_label c0.
Proof.
  intros Hin.
  assert (c0 ∈ labelled (ch_label c0) chans) as H0.
  { unfold labelled. by apply list_elem_of_filter. }
  destruct (last (labelled (ch_label c0) chans)) as [c|] eqn:Hlast.
  - exists c. split; [done|].
    assert (c ∈ labelled (ch_label c0) chans) as Hc.
    { by apply last_Some_elem_of. }
    unfold labelled in Hc. apply list_elem_of_filter in Hc as [Hlab Hin']. done.
  - apply last_None in Hlast. rewrite Hlast in H0. by apply not_elem_of_nil in H0.
Qed.

(** C1.  When the filter step and the broadband spectral step succeed on
    every channel, [analyze_edf] returns a result (also when a broadband
    power is 0), and under each channel's label the result holds, for
    every band of the registry, the band power divided by the broadband
    [1, 45] power when that is positive, and 0 when it is not.  Under a
    label that several channels share, the profile is that of the last
    one. *)
Theorem relative_power_stored (lib : SignalLib) (path : string) (w : world)
    (chans : list EdfChannel) :
  files w !! path = Some (EdfData chans) →
  (∀ c, c ∈ chans →
     ∃ sig total, filter_stage lib (ch_samples c) (ch_fs c) = Ok sig
                  ∧ bandpower lib sig (ch_fs c) (qc 1, qc 45) 2 = Ok total) →
  ∃ results, (analyze_edf lib path w).2 = Ok results ∧
    ∀ c0, c0 ∈ chans →
      ∃ c profile sig total,
        last (labelled (ch_label c0) chans) = Some c
        ∧ dict_get (ch_label c0) results = Some profile
        ∧ filter_stage lib (ch_samples c) (ch_fs c) = Ok sig
        ∧ bandpower lib sig (ch_fs c) (qc 1, qc 45) 2 = Ok total
        ∧ ∀ name band, dict_get name EEG_BANDS = Some band →
            ∃ bp v, bandpower lib sig (ch_fs c) band 2 = Ok bp
                    ∧ dict_get name profile = Some v
                    ∧ (0 < total → v = bp / total)
                    ∧ (total ≤ 0 → v = 0).
Proof.
  intros Hp Hsteps.
  destruct (profiles_fold_ok lib chans []) as [results Hres].
  { intros c Hc. destruct (Hsteps c Hc) as (sig & total & Hf & Hb).
    destruct (channel_profile_of_steps _ _ _ _ _ Hf Hb) as (? & ? & _ & _ & _ & ->). done. }
  exists results. split; [by rewrite (analyze_edf_fold _ _ _ _ Hp)|].
  intros c0 Hc0. destruct (last_labelled _ _ Hc0) as (c & Hlast & Hc & Hlab).
  pose proof (profiles_fold_get lib chans [] results (ch_label c0) Hres) as Hget.
  rewrite Hlast in Hget. destruct Hget as (p & Hprof & Hget).
  destruct (Hsteps c Hc) as (sig & total & Hf & Hb).
  destruct (channel_profile_of_steps _ _ _ _ _ Hf Hb) as (freqs & psd & Hw & Hl & Ht & Hcp).
  rewrite Hcp in Hprof. injection Hprof as <-.
  exists c, (profile_of freqs psd), sig, total. repeat split; try done.
  intros name band Hband.
  exists (band_power_of freqs psd band),
         (relative_power (band_power_of freqs psd band) total).
  split; [by apply bandpower_points|].
  split; [rewrite Ht; by apply profile_of_get|].
  split; [apply relative_power_pos | apply relative_power_nonpos].
Qed.

(** C1, at a recording of two channels, the second one flat (its
    broadband power is 0). *)
Lemma relative_power_stored_witness :
  let chans := [chan_ok; chan_flat] in
  let w := world_with "rec.edf" chans in
  ∃ results, (analyze_edf SampleLib.lib "rec.edf" w).2 = Ok results ∧
    ∀ c0, c0 ∈ chans →
      ∃ c profile sig total,
        last (labelled (ch_label c0) chans) = Some c
        ∧ dict_get (ch_label c0) results = Some profile
        ∧ filter_stage SampleLib.lib (ch_samples c) (ch_fs c) = Ok sig
        ∧ bandpower SampleLib.lib sig (ch_fs c) (qc 1, qc 45) 2 = Ok total
        ∧ ∀ name band, dict_get name EEG_BANDS = Some band →
            ∃ bp v, bandpower SampleLib.lib sig (ch_fs c) band 2 = Ok bp
                    ∧ dict_get name profile = Some v
                    ∧ (0 < total → v = bp / total)
                    ∧ (total ≤ 0 → v = 0).
Proof.
  intros chans w.
  apply (relative_power_stored SampleLib.lib "rec.edf" w chans).
  - reflexivity.
  - intros c Hc. apply elem_of_cons in Hc as [->|Hc].
    + eexists. eexists. split; reflexivity.
    + apply list_elem_of_singleton in Hc as ->.
      eexists. eexists. split; reflexivity.
Defined.

(** ** Bounds on the relative power *)

Lemma Qcmult_nonneg (a b : Qc) : 0 ≤ a → 0 ≤ b → 0 ≤ a * b.
Proof.
  intros Ha Hb. rewrite <- (Qcmult_0_r a). by apply Qcmult_le_mono_nonneg_l.
Qed.

Lemma Qc_half_nonneg : 0 ≤ / 2.
Proof. by vm_compute. Qed.

Lemma area_nonneg (x0 x1 y0 y1 : Qc) :
  x0 ≤ x1 → 0 ≤ y0 → 0 ≤ y1 → 0 ≤ (x1 - x0) * (y0 + y1) / 2.
Proof.
  intros Hx H0 H1. unfold Qcdiv.
  apply Qcmult_nonneg; [apply Qcmult_nonneg|apply Qc_half_nonneg].
  - unfold Qcminus. by rewrite <- Qcle_minus_iff.
  - by apply Qcplus_nonneg_nonneg.
Qed.

Lemma ratio_unit (bp total : Qc) :
  0 ≤ bp → bp ≤ total → 0 < total → 0 ≤ bp / total ∧ bp / total ≤ 1.
Proof.
  intros H0 H1 Ht.
  assert (bp / total * total = bp) as E.
  { field. intros ->. by apply Qclt_not_eq in Ht. }
  split.
  - apply (Qcmult_lt_0_le_reg_r _ _ total Ht). by rewrite E, Qcmult_0_l.
  - apply (Qcmult_lt_0_le_reg_r _ _ total Ht). by rewrite E, Qcmult_1_l.
Qed.

Lemma pts_sorted_cons (p : Qc * Qc) (pts : list (Qc * Qc)) :
  pts_sorted (p :: pts) ↔ Forall (λ q, p.1 ≤ q.1) pts ∧ pts_sorted pts.
Proof. unfold pts_sorted. apply StronglySorted_cons. Qed.

Lemma zip_pts_sorted (freqs psd : list Qc) : ascending freqs → pts_sorted (zip freqs psd).
Proof.
  unfold ascending. revert psd.
  induction freqs as [|f freqs IH]; intros [|p psd] Hs; simpl; try by constructor.
  apply StronglySorted_cons in Hs as [Hall Hs].
  apply pts_sorted_cons. split; [|by apply IH].
  clear IH Hs. revert psd. induction Hall as [|g gs Hg Hall IH]; intros [|q psd]; simpl;
    constructor; by auto.
Qed.

Lemma zip_pts_nonneg (freqs psd : list Qc) : nonnegative psd → pts_nonneg (zip freqs psd).
Proof.
  unfold nonnegative, pts_nonneg. intros Hn. revert freqs.
  induction Hn as [|p psd Hp Hn IH]; intros [|f freqs]; simpl; constructor; by auto.
Qed.

Lemma filter_pts_sorted (P : Qc * Qc → Prop) `{!∀ p, Decision (P p)} (pts : list (Qc * Qc)) :
  pts_sorted pts → pts_sorted (filter P pts).
Proof.
  induction pts as [|p pts IH]; [done|].
  rewrite pts_sorted_cons. intros [Hall Hs]. rewrite filter_cons.
  destruct (decide (P p)); [|by apply IH].
  apply pts_sorted_cons. split; [|by apply IH].
  apply Forall_forall. intros q Hq. apply list_elem_of_filter in Hq as [_ Hq].
  by apply (proj1 (Forall_forall _ _) Hall).
Qed.

Lemma filter_pts_nonneg (P : Qc * Qc → Prop) `{!∀ p, Decision (P p)} (pts : list (Qc * Qc)) :
  pts_nonneg pts → pts_nonneg (filter P pts).
Proof.
  unfold pts_nonneg. rewrite !Forall_forall. intros Hall q Hq.
  apply list_elem_of_filter in Hq as [_ Hq]. by apply Hall.
Qed.

Lemma trapezoid_nonneg (pts : list (Qc * Qc)) :
  pts_sorted pts → pts_nonneg pts → 0 ≤ trapezoid_rule pts.
Proof.
  induction pts as [|[x0 y0] rest IH]; [done|].
  destruct rest as [|[x1 y1] rest']; [done|].
  intros Hs Hn. apply pts_sorted_cons in Hs as [Hall Hs].
  apply Forall_cons in Hn as [Hy0 Hn].
  change (0 ≤ (x1 - x0) * (y0 + y1) / 2 + trapezoid_rule ((x1, y1) :: rest')).
  apply Qcplus_nonneg_nonneg; [|by apply IH].
  apply Forall_cons in Hall as [Hx _]. apply Forall_cons in Hn as [Hy1 _].
  by apply area_nonneg.
Qed.

(** On ascending bins, nothing beyond a bin above the band is selected. *)
Lemma filter_above_band (band : Qc * Qc) (q : Qc * Qc) (pts : list (Qc * Qc)) :
  pts_sorted (q :: pts) → ¬ q.1 ≤ band.2 →
  filter (λ p, in_band band p.1) (q :: pts) = [].
Proof.
  intros Hs Hq. apply pts_sorted_cons in Hs as [Hall _].
  assert (Forall (λ p : Qc * Qc, ¬ in_band band p.1) (q :: pts)) as Hnone.
  { constructor; [by intros [_ H]|].
    eapply Forall_impl; [exact Hall|]. intros p Hp [_ Hhi]. apply Hq.
    by apply Qcle_trans with p.1. }
  clear Hall Hq. induction Hnone as [|p ps Hp _ IH]; [done|].
  rewrite filter_cons. by destruct (decide (in_band band p.1)).
Qed.

(** The bins of a band are consecutive, so its integral is a part of the
    integral over all bins. *)
Lemma trapezoid_filter_le (band : Qc * Qc) (pts : list (Qc * Qc)) :
  pts_sorted pts → pts_nonneg pts →
  trapezoid_rule (filter (λ p, in_band band p.1) pts) ≤ trapezoid_rule pts.
Proof.
  induction pts as [|[x0 y0] rest IH]; [done|].
  intros Hs Hn. pose proof Hs as Hs0. pose proof Hn as Hn0.
  apply pts_sorted_cons in Hs as [Hall Hs]. apply Forall_cons in Hn as [Hy0 Hn].
  specialize (IH Hs Hn). rewrite filter_cons. simpl.
  destruct (decide (in_band band x0)) as [[Hlo Hhi]|Hout].
  - destruct rest as [|[x1 y1] rest']; [done|].
    apply Forall_cons in Hall as [Hx Hall]. simpl in Hx.
    destruct (decide (in_band band x1)) as [Hin|Hnin].
    + rewrite filter_cons in *. simpl in *. rewrite decide_True in * by done.
      change (trapezoid_rule ((x0, y0) :: (x1, y1) :: rest'))
        with ((x1 - x0) * (y0 + y1) / 2 + trapezoid_rule ((x1, y1) :: rest')).
      change ((x1 - x0) * (y0 + y1) / 2
              + trapezoid_rule ((x1, y1) :: filter (λ p, in_band band p.1) rest')
              ≤ (x1 - x0) * (y0 + y1) / 2 + trapezoid_rule ((x1, y1) :: rest')).
      by apply Qcplus_le_mono_l.
    + rewrite (filter_above_band band (x1, y1) rest' Hs).
      * exact (trapezoid_nonneg _ Hs0 Hn0).
      * simpl. intros Hle. apply Hnin. split; [|done].
        by apply Qcle_trans with x0.
  - apply Qcle_trans with (trapezoid_rule rest); [done|].
    destruct rest as [|[x1 y1] rest']; [done|].
    change (trapezoid_rule ((x0, y0) :: (x1, y1) :: rest'))
      with ((x1 - x0) * (y0 + y1) / 2 + trapezoid_rule ((x1, y1) :: rest')).
    rewrite <- (Qcplus_0_l (trapezoid_rule _)) at 1.
    apply Qcplus_le_mono_r.
    apply Forall_cons in Hall as [Hx _]. apply Forall_cons in Hn as [Hy1 _].
    by apply area_nonneg.
Qed.

Lemma canonical_band_within_broadband (name : string) (band : Qc * Qc) :
  dict_get name EEG_BANDS = Some band → qc 1 ≤ band.1 ∧ band.2 ≤ qc 45.
Proof.
  unfold EEG_BANDS. simpl.
  repeat (case_decide; [intros [= <-]; by vm_compute|]). done.
Qed.

(** The bins of a band inside [1, 45] are among the broadband bins. *)
Lemma selected_bins_within (freqs psd : list Qc) (band : Qc * Qc) :
  qc 1 ≤ band.1 → band.2 ≤ qc 45 →
  selected_bins freqs psd band
  = filter (λ p, in_band band p.1) (selected_bins freqs psd (qc 1, qc 45)).
Proof.
  intros Hlo Hhi. unfold selected_bins. rewrite list_filter_filter.
  apply list_filter_iff. intros [f p]. unfold in_band. simpl. split; [|tauto].
  intros [H1 H2]. repeat split; try done.
  - by apply Qcle_trans with band.1.
  - by apply Qcle_trans with band.2.
Qed.

Lemma band_power_bounds (freqs psd : list Qc) (band : Qc * Qc) :
  ascending freqs → nonnegative psd →
  qc 1 ≤ band.1 → band.2 ≤ qc 45 →
  0 ≤ band_power_of freqs psd band
  ∧ band_power_of freqs psd band ≤ band_power_of freqs psd (qc 1, qc 45).
Proof.
  intros Ha Hn Hlo Hhi. unfold band_power_of.
  assert (pts_sorted (selected_bins freqs psd (qc 1, qc 45))) as Hs.
  { apply filter_pts_sorted. by apply zip_pts_sorted. }
  assert (pts_nonneg (selected_bins freqs psd (qc 1, qc 45))) as Hp.
  { apply filter_pts_nonneg. by apply zip_pts_nonneg. }
  rewrite (selected_bins_within freqs psd band Hlo Hhi). split.
  - apply trapezoid_nonneg.
    + by apply filter_pts_sorted.
    + by apply filter_pts_nonneg.
  - by apply trapezoid_filter_le.
Qed.

(** C2.  For a channel whose filtered signal has a spectrum with
    ascending bins and values that are not negative, the broadband power
    is not negative and each relative power of the profile lies in
    [0, 1] when the broadband power is positive and is 0 when the
    broadband power is 0. *)
Theorem relative_power_in_unit_interval (lib : SignalLib) (signal : list Qc) (fs : Qc)
    (sig freqs psd : list Qc) :
  filter_stage lib signal fs = Ok sig →
  welch lib sig fs (2 * fs) = Ok (freqs, psd) →
  length freqs = length psd →
  ascending freqs →
  nonnegative psd →
  ∃ total profile,
    bandpower lib sig fs (qc 1, qc 45) 2 = Ok total
    ∧ channel_profile lib signal fs = Ok profile
    ∧ 0 ≤ total
    ∧ ∀ name band, dict_get name EEG_BANDS = Some band →
        ∃ v, dict_get name profile = Some v
             ∧ (0 < total → 0 ≤ v ∧ v ≤ 1)
             ∧ (total = 0 → v = 0).
Proof.
  intros Hf Hw Hl Ha Hn.
  exists (band_power_of freqs psd (qc 1, qc 45)), (profile_of freqs psd).
  split; [by apply bandpower_points|].
  split; [by eapply channel_profile_eq|].
  split.
  { apply (band_power_bounds freqs psd (qc 1, qc 45) Ha Hn); by vm_compute. }
  intros name band Hband.
  destruct (canonical_band_within_broadband _ _ Hband) as [Hlo Hhi].
  destruct (band_power_bounds freqs psd band Ha Hn Hlo Hhi) as [H0 H1].
  eexists. split; [by apply profile_of_get|]. split.
  - intros Ht. rewrite relative_power_pos by done. by apply ratio_unit.
  - intros Ht. apply relative_power_nonpos. rewrite Ht. apply Qcle_refl.
Qed.

(** C2, at thirty-two samples at 100 Hz. *)
Lemma relative_power_in_unit_interval_witness :
  let sig := np_sub_scalar sig32 (np_mean sig32) in
  ∃ total profile,
    bandpower SampleLib.lib sig (qc 100) (qc 1, qc 45) 2 = Ok total
    ∧ channel_profile SampleLib.lib sig32 (qc 100) = Ok profile
    ∧ 0 ≤ total
    ∧ ∀ name band, dict_get name EEG_BANDS = Some band →
        ∃ v, dict_get name profile = Some v
             ∧ (0 < total → 0 ≤ v ∧ v ≤ 1)
             ∧ (total = 0 → v = 0).
Proof.
  intros sig.
  apply (relative_power_in_unit_interval SampleLib.lib sig32 (qc 100) sig
           (SampleLib.rfftfreq 32 (qc 100)) ((λ v, v * v / qc 100) <$> take 17 sig)).
  - reflexivity.
  - reflexivity.
  - reflexivity.
  - unfold ascending. repeat (apply StronglySorted_cons; split);
      repeat (apply Forall_cons; split); try apply Forall_nil; try apply SSorted_nil;
      by vm_compute.
  - unfold nonnegative. repeat (apply Forall_cons; split); try apply Forall_nil;
      by vm_compute.
Defined.

(** ** The executable instance meets what scipy documents *)


Lemma Qfloor_qc (z : Z) : Qfloor (qc z) = z.
Proof. unfold qc, Qc_of_Z. simpl. apply Qfloor_Z. Qed.

Lemma sample_segment_length (x : list Qc) (n : Qc) :
  qc (Z.of_nat (length x)) < n → SampleLib.segment_length x n = length x.
Proof.
  intros Hlt. unfold SampleLib.segment_length.
  assert (Z.of_nat (length x) ≤ Qfloor n)%Z as Hle.
  { rewrite <- (Qfloor_qc (Z.of_nat (length x))). apply Qfloor_resp_le.
    apply Qlt_le_weak. exact Hlt. }
  lia.
Qed.

Lemma sample_segment_length_whole (x : list Qc) :
  SampleLib.segment_length x (qc (Z.of_nat (length x))) = length x.
Proof.
  unfold SampleLib.segment_length. rewrite Qfloor_qc, Nat2Z.id. apply Nat.min_id.
Qed.

Lemma sample_welch_reduces_segment : welch_reduces_segment SampleLib.lib.
Proof.
  intros x fs n Hlt. simpl. unfold SampleLib.welch.
  destruct x as [|v x]; [done|].
  by rewrite (sample_segment_length _ _ Hlt), sample_segment_length_whole.
Qed.

(** ** The filter stage at a low sample rate *)





(** ** A failing channel *)

Lemma profiles_fold_first_failure (lib : SignalLib) (pre post : list EdfChannel)
    (c : EdfChannel) (e : exn) (acc : AnalysisResult) :
  (∀ c', c' ∈ pre → is_ok (channel_profile lib (ch_samples c') (ch_fs c')) = true) →
  channel_profile lib (ch_samples c) (ch_fs c) = Raise e →
  profiles_fold lib (pre ++ c :: post) acc = Raise e.
Proof.
  intros Hpre Hc. revert acc. induction pre as [|c' pre IH]; intros acc; simpl.
  - by rewrite Hc.
  - pose proof (Hpre c' (list_elem_of_here _ _)) as Hok.
    destruct (channel_profile lib (ch_samples c') (ch_fs c')) as [p|e']; [|done]. simpl.
    apply IH. intros c'' Hin. apply Hpre. by apply list_elem_of_further.
Qed.

(** C4, as the code has it.  The exception of the first channel that
    fails leaves [analyze_edf]: the analysis returns no result, neither for
    the channels before it nor for those after it. *)
Theorem first_failure_aborts_analysis (lib : SignalLib) (path : string) (w : world)
    (pre post : list EdfChannel) (c : EdfChannel) (e : exn) :
  files w !! path = Some (EdfData (pre ++ c :: post)) →
  (∀ c', c' ∈ pre → is_ok (channel_profile lib (ch_samples c') (ch_fs c')) = true) →
  channel_profile lib (ch_samples c) (ch_fs c) = Raise e →
  (analyze_edf lib path w).2 = Raise e.
Proof.
  intros Hp Hpre Hc. rewrite (analyze_edf_fold _ _ _ _ Hp).
  by apply profiles_fold_first_failure.
Qed.

(** C4 as amended, at a recording whose second channel is sampled at 50 Hz. *)
Lemma first_failure_aborts_analysis_witness :
  (analyze_edf SampleLib.lib "rec.edf"
     (world_with "rec.edf" ([chan_ok] ++ chan_slow :: [chan_flat]))).2
  = Raise ValueError.
Proof.
  apply (first_failure_aborts_analysis SampleLib.lib "rec.edf" _ [chan_ok] [chan_flat]
           chan_slow ValueError).
  - reflexivity.
  - intros c Hc. apply list_elem_of_singleton in Hc as ->. reflexivity.
  - reflexivity.
Defined.

(** C4 as stated fails: the channel at 100 Hz has a profile of its own, yet
    the recording that also holds a 50 Hz channel gets no result at all. *)
Lemma partial_results_not_produced :
  is_ok (channel_profile SampleLib.lib (ch_samples chan_ok) (ch_fs chan_ok)) = true
  ∧ ¬ ∃ results,
        (analyze_edf SampleLib.lib "rec.edf"
           (world_with "rec.edf" [chan_slow; chan_ok])).2 = Ok results.
Proof.
  split; [reflexivity|]. intros [results H]. vm_compute in H. discriminate H.
Qed.

(** ** A signal shorter than the spectral window *)

(** C5, as the code has it.  [bandpower] hands [window_sec * sf] to
    [welch] unchecked; with a [welch] that reduces the segment to the
    signal, as scipy documents it, a window longer than the signal does
    not fail: [bandpower] returns the band integral of the spectrum that
    [welch] computes with the whole signal as its one segment. *)
Theorem long_window_uses_whole_signal (lib : SignalLib) (data : list Qc)
    (sf window_sec : Qc) (band : Qc * Qc) (freqs psd : list Qc) :
  welch_reduces_segment lib →
  qc (Z.of_nat (length data)) < window_sec * sf →
  welch lib data sf (qc (Z.of_nat (length data))) = Ok (freqs, psd) →
  length freqs = length psd →
  bandpower lib data sf band window_sec
  = Ok (trapezoid_rule (selected_bins freqs psd band)).
Proof.
  intros Hlib Hlong Hw Hl. apply bandpower_points; [|done].
  by rewrite (Hlib _ _ _ Hlong).
Qed.

(** C5 as amended, at thirty-two samples and a window of 200. *)
Lemma long_window_uses_whole_signal_witness :
  bandpower SampleLib.lib sig32 (qc 100) (qc 12, qc 30) 2
  = Ok (trapezoid_rule
          (selected_bins (SampleLib.rfftfreq 32 (qc 100))
             ((λ v, v * v / qc 100) <$> take 17 sig32) (qc 12, qc 30))).
Proof.
  apply (long_window_uses_whole_signal SampleLib.lib sig32 (qc 100) 2 (qc 12, qc 30)).
  - apply sample_welch_reduces_segment.
  - by vm_compute.
  - reflexivity.
  - reflexivity.
Defined.

(** C5 as stated fails: thirty-two samples at 100 Hz are fewer than the
    200 of the window, and [bandpower] returns a band power (0 for the
    Delta band, which holds the single bin 3.125 Hz). *)
Lemma short_signal_gets_band_power :
  qc (Z.of_nat (length sig32)) < 2 * qc 100
  ∧ bandpower SampleLib.lib sig32 (qc 100) (qc 1, qc 4) 2 = Ok 0.
Proof. split; [by vm_compute|reflexivity]. Qed.

(** ** The recording handle *)

Lemma remove_first_head (p : string) (l : list string) : remove_first p (p :: l) = l.
Proof. simpl. by rewrite decide_True. Qed.

Lemma reader_closed_on_success (lib : SignalLib) (path : string) (w : world)
    (results : AnalysisResult) :
  (analyze_edf lib path w).2 = Ok results →
  open_readers (analyze_edf lib path w).1 = open_readers w.
Proof.
  unfold analyze_edf, open_edf.
  destruct (files w !! path) as [[chans|bytes]|]; simpl; try done.
  destruct (channel_loop _ _ _ _ _ _); simpl; [|done].
  intros _. by rewrite decide_True.
Qed.

(** C7, what the code does.  When the analysis of an opened recording
    ends with an exception, [f.close()] has not run: the reader opened for
    [path] is still among the open readers. *)
Theorem reader_left_open_on_error (lib : SignalLib) (path : string) (w : world)
    (chans : list EdfChannel) (e : exn) :
  files w !! path = Some (EdfData chans) →
  (analyze_edf lib path w).2 = Raise e →
  open_readers (analyze_edf lib path w).1 = path :: open_readers w.
Proof.
  intros Hp. unfold analyze_edf, open_edf. rewrite Hp.
  destruct (channel_loop _ _ _ _ _ _); simpl; done.
Qed.

(** C7, at a recording whose first channel is sampled at 50 Hz. *)
Lemma reader_left_open_on_error_witness :
  open_readers
    (analyze_edf SampleLib.lib "rec.edf" (world_with "rec.edf" [chan_slow; chan_ok])).1
  = ["rec.edf"].
Proof.
  apply (reader_left_open_on_error SampleLib.lib "rec.edf"
           (world_with "rec.edf" [chan_slow; chan_ok]) [chan_slow; chan_ok] ValueError).
  - reflexivity.
  - reflexivity.
Defined.

(** ** A uniform gain on the raw samples *)

Lemma np_sum_scale (g : Qc) (x : list Qc) : np_sum (scale g x) = g * np_sum x.
Proof.
  unfold np_sum, scale. induction x as [|v x IH]; [simpl; ring|].
  rewrite fmap_cons. cbn [foldr]. rewrite IH. ring.
Qed.














(** ** Auto-interpretation *)

(** The events of one channel, read off the items of its profile. *)
Lemma interpret_bands_items (ch : string) (bands : pydict Qc) (docs : document * document) :
  let events :=
    ('(band, val) ← bands;
     if decide (threshold < val) then [(ch, band, regionsFor ch)] else []) in
  interpret_bands ch bands docs
  = (docs.1 ++ (clinical_text <$> events), docs.2 ++ (patient_text <$> events)).
Proof.
  revert docs. induction bands as [|[band val] rest IH]; intros [cl pa]; simpl.
  - by rewrite !app_nil_r.
  - destruct (Qcltb threshold val) eqn:Hv.
    + apply Qcltb_lt in Hv. rewrite decide_True by done.
      rewrite IH. simpl. unfold multi_cell. by rewrite <- !app_assoc.
    + apply Qcltb_nlt in Hv. rewrite decide_False by (by apply Qcle_not_lt).
      by rewrite IH.
Qed.

(** Walking the items of a dictionary is walking its keys and looking
    each one up, when no key occurs twice. *)
Lemma dict_items_by_keys {V B} (d : pydict V) (f : string → V → list B) :
  NoDup (dict_keys d) →
  ('(k, v) ← d; f k v)
  = (k ← dict_keys d; match dict_get k d with Some v => f k v | None => [] end).
Proof.
  unfold dict_keys. induction d as [|[k v] d IH]; intros Hnd; [done|].
  rewrite fmap_cons in *. apply NoDup_cons in Hnd as [Hk Hnd].
  rewrite !bind_cons. cbn [fst dict_get]. rewrite decide_True by done.
  f_equal. rewrite (IH Hnd).
  clear IH Hnd. induction (d.*1) as [|k' ks IHk]; [done|].
  apply not_elem_of_cons in Hk as [Hne Hk].
  rewrite !bind_cons. rewrite decide_False by done. f_equal. by apply IHk.
Qed.

Lemma channel_profile_registry (lib : SignalLib) (signal : list Qc) (fs : Qc)
    (profile : pydict Qc) :
  channel_profile lib signal fs = Ok profile → registry_profile profile.
Proof.
  intros H. pose proof H as H0. unfold channel_profile in H.
  destruct (filter_stage lib signal fs) as [sig|e] eqn:Hf; [|done].
  cbn [mbind result_bind] in H.
  destruct (bandpower lib sig fs (qc 1, qc 45) 2) as [total|e] eqn:Hb; [|done].
  destruct (channel_profile_of_steps _ _ _ _ _ Hf Hb) as (freqs & psd & _ & _ & _ & Hp).
  rewrite Hp in H0. injection H0 as <-. reflexivity.
Qed.

Lemma dict_set_values {V} (P : V → Prop) (k : string) (v : V) (d : pydict V) :
  P v → Forall P d.*2 → Forall P (dict_set k v d).*2.
Proof.
  intros Hv. induction d as [|[k' v'] d IH]; simpl; intros Hd.
  - by constructor.
  - apply Forall_cons in Hd as [Hv' Hd].
    destruct (decide (k' = k)); simpl; constructor; auto.
Qed.

Lemma profiles_fold_registry (lib : SignalLib) (chans : list EdfChannel)
    (acc results : AnalysisResult) :
  profiles_fold lib chans acc = Ok results →
  Forall registry_profile acc.*2 → Forall registry_profile results.*2.
Proof.
  revert acc. induction chans as [|c chans IH]; intros acc; simpl.
  - by intros [= ->].
  - destruct (channel_profile lib (ch_samples c) (ch_fs c)) as [p|e] eqn:Hp; [|done].
    simpl. intros H Hacc. apply (IH _ H). apply dict_set_values; [|done].
    by eapply channel_profile_registry.
Qed.

Lemma analyze_edf_registry (lib : SignalLib) (path : string) (w : world)
    (results : AnalysisResult) :
  (analyze_edf lib path w).2 = Ok results → Forall registry_profile results.*2.
Proof.
  intros H. destruct (files w !! path) as [[chans|bytes]|] eqn:Hp.
  - rewrite (analyze_edf_fold _ _ _ _ Hp) in H.
    eapply profiles_fold_registry; [exact H|constructor].
  - unfold analyze_edf, open_edf in H. by rewrite Hp in H.
  - unfold analyze_edf, open_edf in H. by rewrite Hp in H.
Qed.

Lemma auto_interpretation_registry (results : AnalysisResult) (docs : document * document) :
  Forall registry_profile results.*2 →
  auto_interpretation results docs
  = (docs.1 ++ (clinical_text <$> annotations results),
     docs.2 ++ (patient_text <$> annotations results)).
Proof.
  revert docs. induction results as [|[ch profile] rest IH]; intros [cl pa] Hreg.
  - simpl. by rewrite !app_nil_r.
  - simpl in Hreg. apply Forall_cons in Hreg as [Hp Hreg].
    change (auto_interpretation ((ch, profile) :: rest) (cl, pa))
      with (auto_interpretation rest (interpret_bands ch profile (cl, pa))).
    rewrite interpret_bands_items, (IH _ Hreg). cbn [fst snd].
    assert (annotations ((ch, profile) :: rest)
            = ('(band, val) ← profile;
               if decide (threshold < val) then [(ch, band, regionsFor ch)] else [])
              ++ annotations rest) as ->.
    { unfold annotations at 1. rewrite bind_cons. f_equal.
      rewrite (dict_items_by_keys profile
                 (λ band val, if decide (threshold < val)
                              then [(ch, band, regionsFor ch)] else [])).
      - by rewrite Hp.
      - rewrite Hp. apply (bool_decide_unpack _). by vm_compute. }
    by rewrite !fmap_app, !app_assoc.
Qed.

(** C9.  On the result of an analysis, the auto-interpretation appends to
    the clinical and to the patient document one line for each annotation
    event, and the events are exactly the pairs (channel, band) whose
    relative power exceeds 0.3, each with the regions of its channel (none
    if the channel is unmapped), channels in the order of the result and
    bands in the order of the registry. *)
Theorem auto_interpretation_annotations (lib : SignalLib) (path : string) (w : world)
    (results : AnalysisResult) (docs : document * document) :
  (analyze_edf lib path w).2 = Ok results →
  auto_interpretation results docs
  = (docs.1 ++ (clinical_text <$> annotations results),
     docs.2 ++ (patient_text <$> annotations results)).
Proof.
  intros H. apply auto_interpretation_registry. by eapply analyze_edf_registry.
Qed.

(** C9, at the analysis of a recording of two channels: one event, Beta
    at C3, with the four regions of C3. *)
Lemma auto_interpretation_annotations_witness :
  let w := world_with "rec.edf" [chan_ok; chan_flat] in
  let results :=
    match (analyze_edf SampleLib.lib "rec.edf" w).2 with
    | Ok r => r
    | Raise _ => []
    end in
  annotations results = [("C3", "Beta", ["BA1"; "BA2"; "BA3"; "BA4"])]%string
  ∧ auto_interpretation results ([], [])
    = ([] ++ (clinical_text <$> annotations results),
       [] ++ (patient_text <$> annotations results)).
Proof.
  intros w results. split; [reflexivity|].
  apply (auto_interpretation_annotations SampleLib.lib "rec.edf" w results ([], [])).
  reflexivity.
Defined.

(** ** The upload loop *)

Lemma last_edf_cons (file : upload) (rest : list upload) :
  last_edf (file :: rest)
  = match last_edf rest with
    | Some u => Some u
    | None => if decide (is_edf file) then Some file else None
    end.
Proof.
  unfold last_edf. rewrite filter_cons.
  destruct (decide (is_edf file)); [|by destruct (last _)].
  rewrite last_cons. by destruct (last _).
Qed.

Lemma upload_loop_last_edf (lib : SignalLib) (extract_text : string → world → result string)
    (tmpdir : string) (uploads : list upload) (r0 : AnalysisResult) (t0 : pydict string)
    (w : world) (r : AnalysisResult) (t : pydict string) :
  (upload_loop lib extract_text tmpdir uploads r0 t0 w).2 = Ok (r, t) →
  match last_edf uploads with
  | None => r = r0
  | Some u =>
      ∃ chans, data u = EdfData chans
               ∧ (analyze_edf lib (name u) (world_with (name u) chans)).2 = Ok r
  end.
Proof.
  revert r0 t0 w. induction uploads as [|file rest IH]; intros r0 t0 w H.
  - simpl in H. by injection H as -> _.
  - rewrite last_edf_cons. simpl in H.
    set (path := os_path_join tmpdir (name file)) in *.
    destruct (endswith (name file) ".edf") eqn:Hedf.
    + assert (files (write_file path (data file) w) !! path = Some (data file)) as Hfile.
      { simpl. apply lookup_insert_eq. }
      destruct (analyze_edf lib path (write_file path (data file) w)) as [w1 [r1|e]] eqn:Ha;
        [|done].
      specialize (IH _ _ _ H). destruct (last_edf rest) as [u|]; [done|].
      subst r. rewrite decide_True by done.
      destruct (data file) as [chans|bytes] eqn:Hd.
      * exists chans. split; [done|].
        rewrite (analyze_edf_fold lib (name file) _ chans) by apply lookup_singleton_eq.
        rewrite <- (analyze_edf_fold lib path _ chans Hfile). by rewrite Ha.
      * unfold analyze_edf, open_edf in Ha. rewrite Hfile in Ha. done.
    + destruct (extract_text path (write_file path (data file) w)) as [txt|e]; [|done].
      specialize (IH _ _ _ H). destruct (last_edf rest) as [u|]; [done|].
      rewrite decide_False; [done|]. unfold is_edf. by rewrite Hedf.
Qed.

(** C10.  When the loop over a batch of uploads finishes, the result it
    holds is the analysis of the last [.edf] file of the batch alone,
    whatever recordings came before it (and it is empty when the batch
    holds no [.edf] file); that result, if it is not empty, is what the
    reports are generated from. *)
Theorem last_recording_replaces_previous (lib : SignalLib)
    (extract_text : string → world → result string)
    (tmpdir : string) (uploads : list upload) (w : world)
    (r : AnalysisResult) (t : pydict string) :
  (upload_loop lib extract_text tmpdir uploads [] [] w).2 = Ok (r, t) →
  match last_edf uploads with
  | None => r = []
  | Some u =>
      ∃ chans, data u = EdfData chans
               ∧ (analyze_edf lib (name u) (world_with (name u) chans)).2 = Ok r
  end
  ∧ (main_reports_input lib extract_text tmpdir uploads w).2
    = Ok (match r with [] => None | _ => Some (r, t) end).
Proof.
  intros H. split; [by eapply upload_loop_last_edf|].
  unfold main_reports_input.
  destruct (upload_loop lib extract_text tmpdir uploads [] [] w) as [w' [[r' t']|e]];
    simpl in *; [|done].
  by injection H as -> ->.
Qed.

(** C10, at a batch of two recordings with a document between them. *)
Lemma last_recording_replaces_previous_witness :
  let extract := λ (_ : string) (_ : world), Ok "x,y"%string in
  let uploads := [upload_a; upload_notes; upload_b] in
  let t := [("notes.csv", "x,y")]%string in
  let r :=
    match (upload_loop SampleLib.lib extract "/tmp/d" uploads [] [] empty_world).2 with
    | Ok rt => rt.1
    | Raise _ => []
    end in
  last_edf uploads = Some upload_b
  ∧ dict_keys r = ["O1"; "C3"]%string
  ∧ match last_edf uploads with
    | None => r = []
    | Some u =>
        ∃ chans, data u = EdfData chans
                 ∧ (analyze_edf SampleLib.lib (name u) (world_with (name u) chans)).2 = Ok r
    end
    ∧ (main_reports_input SampleLib.lib extract "/tmp/d" uploads empty_world).2
      = Ok (match r with [] => None | _ => Some (r, t) end).
Proof.
  intros extract uploads t r. split; [reflexivity|]. split; [reflexivity|].
  apply (last_recording_replaces_previous SampleLib.lib extract "/tmp/d" uploads
           empty_world r t).
  reflexivity.
Defined.

(** * Further properties of the code *)

(** ** De-meaning *)

Lemma qc_of_nat_S_ne_0 (n : nat) : qc (Z.of_nat (S n)) ≠ 0.
Proof.
  intros E. apply (f_equal this) in E. unfold qc, Qc_of_Z in E. simpl in E.
  discriminate E.
Qed.

Lemma np_sum_offset (c : Qc) (x : list Qc) :
  np_sum (offset c x) = np_sum x + qc (Z.of_nat (length x)) * c.
Proof.
  unfold np_sum, offset. induction x as [|v x IH].
  - simpl. apply Qc_is_canon. reflexivity.
  - rewrite fmap_cons. cbn [foldr length]. rewrite IH.
    replace (qc (Z.of_nat (S (length x)))) with (qc (Z.of_nat (length x)) + 1).
    + ring.
    + apply Qc_is_canon. unfold qc, Qc_of_Z. cbn [this Qcplus Q2Qc].
      rewrite Qred_correct, Nat2Z.inj_succ. unfold Z.succ.
      rewrite inject_Z_plus. reflexivity.
Qed.



Lemma np_sum_sub_scalar (m : Qc) (x : list Qc) :
  np_sum (np_sub_scalar x m) = np_sum x - qc (Z.of_nat (length x)) * m.
Proof.
  assert (np_sub_scalar x m = offset (- m) x) as ->.
  { unfold np_sub_scalar, offset. apply list_fmap_ext. intros _ u _. ring. }
  rewrite np_sum_offset. ring.
Qed.

(** X1.  The filter receives a signal of mean 0, and de-meaning a
    de-meaned signal changes nothing (for a signal with at least one
    sample; of an empty one NumPy's mean is NaN). *)
Theorem demean_idempotent (signal : list Qc) :
  signal ≠ [] →
  np_mean (demean signal) = 0 ∧ demean (demean signal) = demean signal.
Proof.
  intros Hne.
  assert (np_mean (demean signal) = 0) as Hm.
  { unfold np_mean at 1, demean. rewrite np_sum_sub_scalar.
    unfold np_sub_scalar. rewrite length_fmap. unfold np_mean.
    destruct signal as [|v x]; [done|].
    field. apply qc_of_nat_S_ne_0. }
  split; [done|]. unfold demean at 1. rewrite Hm.
  unfold np_sub_scalar. rewrite <- (list_fmap_id (demean signal)) at 2.
  apply list_fmap_ext. intros _ u _. simpl. ring.
Qed.

Lemma demean_idempotent_witness :
  np_mean (demean sig32) = 0 ∧ demean (demean sig32) = demean sig32.
Proof. apply (demean_idempotent sig32). discriminate. Defined.


(** ** Narrow bands and shared edges *)

Lemma trapezoid_rule_short (pts : list (Qc * Qc)) :
  (length pts ≤ 1)%nat → trapezoid_rule pts = 0.
Proof.
  destruct pts as [|[x0 y0] [|q rest]]; simpl; try done. lia.
Qed.

(** X3.  A band that holds at most one bin of the spectrum has band power 0,
    whatever the value at that bin. *)
Theorem bandpower_narrow_band_zero (lib : SignalLib) (data : list Qc) (sf window_sec : Qc)
    (band : Qc * Qc) (freqs psd : list Qc) :
  welch lib data sf (window_sec * sf) = Ok (freqs, psd) →
  length freqs = length psd →
  (length (selected_bins freqs psd band) ≤ 1)%nat →
  bandpower lib data sf band window_sec = Ok 0.
Proof.
  intros Hw Hl Hn. rewrite (bandpower_points _ _ _ _ _ _ _ Hw Hl).
  unfold band_power_of. by rewrite trapezoid_rule_short.
Qed.

(** At 100 Hz and thirty-two samples the Delta band holds the single bin
    3.125 Hz. *)
Lemma bandpower_narrow_band_zero_witness :
  bandpower SampleLib.lib sig32 (qc 100) (qc 1, qc 4) 2 = Ok 0.
Proof.
  apply (bandpower_narrow_band_zero SampleLib.lib sig32 (qc 100) 2 (qc 1, qc 4)
           (SampleLib.rfftfreq 32 (qc 100)) ((λ v, v * v / qc 100) <$> take 17 sig32)).
  - reflexivity.
  - reflexivity.
  - vm_compute. lia.
Defined.

Lemma idx_band_lookup (freqs : list Qc) (band : Qc * Qc) (k : nat) (f : Qc) :
  freqs !! k = Some f →
  idx_band freqs band !! k = Some (Qcleb band.1 f && Qcleb f band.2).
Proof.
  intros Hf. unfold idx_band, np_logical_and, np_ge, np_le.
  rewrite lookup_zip_with, !list_lookup_fmap, Hf. reflexivity.
Qed.

Lemma select_lookup {A} (a : list A) (mask : list bool) (k : nat) (x : A) :
  a !! k = Some x → mask !! k = Some true → x ∈ select a mask.
Proof.
  revert mask k. induction a as [|y a IH]; intros [|b mask] [|k] Ha Hm;
    simpl in *; try done.
  - injection Ha as ->. injection Hm as ->. apply list_elem_of_here.
  - destruct b; [apply list_elem_of_further|]; by eapply IH.
Qed.

(** X4.  The mask of line 35 includes both ends of a band, so for a bin at
    an edge that two consecutive bands of the registry share (4, 8, 12 or
    30 Hz) the mask of either band is true, and the value at that bin is
    among the values that [bandpower] integrates for either band. *)
Theorem shared_edge_bin_in_both_masks (freqs psd : list Qc) (i k : nat)
    (n1 n2 : string) (b1 b2 : Qc * Qc) (p : Qc) :
  EEG_BANDS !! i = Some (n1, b1) →
  EEG_BANDS !! S i = Some (n2, b2) →
  freqs !! k = Some b1.2 →
  psd !! k = Some p →
  (np_logical_and (np_ge freqs b1.1) (np_le freqs b1.2) !! k = Some true
   ∧ np_logical_and (np_ge freqs b2.1) (np_le freqs b2.2) !! k = Some true)
  ∧ p ∈ select psd (np_logical_and (np_ge freqs b1.1) (np_le freqs b1.2))
  ∧ p ∈ select psd (np_logical_and (np_ge freqs b2.1) (np_le freqs b2.2)).
Proof.
  intros H1 H2 Hf Hp.
  pose proof (idx_band_lookup freqs b1 k _ Hf) as Hm1.
  pose proof (idx_band_lookup freqs b2 k _ Hf) as Hm2.
  unfold idx_band in Hm1, Hm2.
  assert (Qcleb b1.1 b1.2 && Qcleb b1.2 b1.2 = true
          ∧ Qcleb b2.1 b1.2 && Qcleb b1.2 b2.2 = true) as [E1 E2].
  { do 5 (destruct i as [|i]; [cbn in H1, H2; simplify_eq; by vm_compute|]). done. }
  rewrite E1 in Hm1. rewrite E2 in Hm2.
  split; [done|]. split; by eapply select_lookup.
Qed.

(** With bins 2 Hz apart, the bin at 4 Hz passes the mask of Delta and the
    mask of Theta. *)
Lemma shared_edge_bin_in_both_masks_witness :
  let freqs := qc <$> [0; 2; 4; 6; 8; 10]%Z in
  let psd := qc <$> [5; 6; 7; 8; 9; 10]%Z in
  (np_logical_and (np_ge freqs (qc 1)) (np_le freqs (qc 4)) !! 2%nat = Some true
   ∧ np_logical_and (np_ge freqs (qc 4)) (np_le freqs (qc 8)) !! 2%nat = Some true)
  ∧ qc 7 ∈ select psd (np_logical_and (np_ge freqs (qc 1)) (np_le freqs (qc 4)))
  ∧ qc 7 ∈ select psd (np_logical_and (np_ge freqs (qc 4)) (np_le freqs (qc 8))).
Proof.
  intros freqs psd.
  apply (shared_edge_bin_in_both_masks freqs psd 0 2 "Delta" "Theta"
           (qc 1, qc 4) (qc 4, qc 8) (qc 7)); reflexivity.
Defined.

(** ** The band powers together *)

Lemma area_pts_nonneg (p q : Qc * Qc) : p.1 ≤ q.1 → 0 ≤ p.2 → 0 ≤ q.2 → 0 ≤ area p q.
Proof. intros. unfold area. by apply area_nonneg. Qed.

Lemma area_same_bin (p q : Qc * Qc) : p.1 = q.1 → area p q = 0.
Proof. intros E. unfold area. rewrite E. unfold Qcdiv. ring. Qed.

Lemma inner_sum_cons2 (band : Qc * Qc) (p q : Qc * Qc) (rest : list (Qc * Qc)) :
  inner_sum band (p :: q :: rest)
  = (if decide (in_band band p.1 ∧ in_band band q.1) then area p q else 0)
    + inner_sum band (q :: rest).
Proof. reflexivity. Qed.

Lemma trapezoid_rule_cons2 (p q : Qc * Qc) (rest : list (Qc * Qc)) :
  trapezoid_rule (p :: q :: rest) = area p q + trapezoid_rule (q :: rest).
Proof. by destruct p, q. Qed.

Lemma inner_sum_none (band : Qc * Qc) (pts : list (Qc * Qc)) :
  Forall (λ p : Qc * Qc, ¬ in_band band p.1) pts → inner_sum band pts = 0.
Proof.
  induction 1 as [|p pts Hp Hall IH]; [done|].
  destruct pts as [|q rest]; [done|].
  rewrite inner_sum_cons2, IH, decide_False by tauto. ring.
Qed.

Lemma above_band_none (band : Qc * Qc) (q : Qc * Qc) (pts : list (Qc * Qc)) :
  pts_sorted (q :: pts) → ¬ q.1 ≤ band.2 →
  Forall (λ p : Qc * Qc, ¬ in_band band p.1) (q :: pts).
Proof.
  intros Hs Hq. apply pts_sorted_cons in Hs as [Hall _].
  constructor; [by intros [_ H]|].
  eapply Forall_impl; [exact Hall|]. intros p Hp [_ Hhi]. apply Hq.
  by apply Qcle_trans with p.1.
Qed.

(** On ascending bins the integral over the bins of a band is the sum of
    the trapezoids between consecutive bins that both lie in the band. *)
Lemma trapezoid_filter_inner (band : Qc * Qc) (pts : list (Qc * Qc)) :
  pts_sorted pts →
  trapezoid_rule (filter (λ p, in_band band p.1) pts) = inner_sum band pts.
Proof.
  induction pts as [|p rest IH]; [done|].
  intros Hs. pose proof Hs as Hs0. apply pts_sorted_cons in Hs as [Hall Hs].
  specialize (IH Hs).
  destruct rest as [|q rest']; [rewrite filter_cons; destruct p; by case_decide|].
  rewrite inner_sum_cons2, filter_cons.
  destruct (decide (in_band band p.1)) as [Hp|Hp].
  - destruct (decide (in_band band q.1)) as [Hq|Hq].
    + rewrite decide_True by done. rewrite <- IH, filter_cons, decide_True by done.
      apply trapezoid_rule_cons2.
    + rewrite decide_False by tauto.
      assert (¬ q.1 ≤ band.2) as Habove.
      { intros Hle. apply Hq. split; [|done]. destruct Hp as [Hlo _].
        apply Forall_cons in Hall as [Hpq _]. by apply Qcle_trans with p.1. }
      rewrite (filter_above_band band q rest' Hs Habove).
      rewrite (inner_sum_none band (q :: rest')) by (by apply above_band_none).
      destruct p. simpl. ring.
  - rewrite decide_False by tauto. rewrite IH. ring.
Qed.

Lemma np_sum_fmap_plus {A} (f g : A → Qc) (l : list A) :
  np_sum ((λ a, f a + g a) <$> l) = np_sum (f <$> l) + np_sum (g <$> l).
Proof.
  unfold np_sum. induction l as [|a l IH]; [simpl; ring|].
  rewrite !fmap_cons. cbn [foldr]. rewrite IH. ring.
Qed.

Lemma np_sum_zero {A} (f : A → Qc) (l : list A) :
  Forall (λ a, f a = 0) l → np_sum (f <$> l) = 0.
Proof.
  unfold np_sum. induction 1 as [|a l Ha Hall IH]; [done|].
  rewrite fmap_cons. cbn [foldr]. rewrite Ha, IH. ring.
Qed.

(** One trapezoid is counted by at most one of several separated bands,
    and then also by the band around them. *)
Lemma trapezoid_counted_once (broad : Qc * Qc) (bands : list (Qc * Qc)) (p q : Qc * Qc) :
  p.1 ≤ q.1 → 0 ≤ area p q →
  separated bands → within broad bands →
  np_sum ((λ b, if decide (in_band b p.1 ∧ in_band b q.1) then area p q else 0) <$> bands)
  ≤ (if decide (in_band broad p.1 ∧ in_band broad q.1) then area p q else 0).
Proof.
  intros Hpq Harea Hsep Hin. induction bands as [|b bands IH].
  - simpl. destruct (decide _); [done|apply Qcle_refl].
  - apply StronglySorted_cons in Hsep as [Hafter Hsep].
    apply Forall_cons in Hin as [[Hlo Hhi] Hin].
    rewrite fmap_cons. unfold np_sum. cbn [foldr]. fold (np_sum).
    change (foldr Qcplus 0 ?l) with (np_sum l).
    destruct (decide (in_band b p.1 ∧ in_band b q.1)) as [[[Hp1 Hp2] [Hq1 Hq2]]|Hnot].
    + rewrite np_sum_zero.
      * rewrite decide_True; [rewrite Qcplus_0_r; apply Qcle_refl|].
        unfold in_band. repeat split.
        -- by apply Qcle_trans with b.1.
        -- by apply Qcle_trans with b.2.
        -- by apply Qcle_trans with b.1.
        -- by apply Qcle_trans with b.2.
      * eapply Forall_impl; [exact Hafter|]. intros b' Hb'. simpl.
        destruct (decide (in_band b' p.1 ∧ in_band b' q.1)) as [Hboth|]; [|done].
        destruct Hboth as [[Hp1' _] [_ _]].
        apply area_same_bin. apply Qcle_antisym; [done|].
        apply Qcle_trans with b.2; [done|]. by apply Qcle_trans with b'.1.
    + rewrite Qcplus_0_l. by apply IH.
Qed.

Lemma inner_sum_bands_le (broad : Qc * Qc) (bands : list (Qc * Qc)) (pts : list (Qc * Qc)) :
  pts_sorted pts → pts_nonneg pts →
  separated bands → within broad bands →
  np_sum ((λ b, inner_sum b pts) <$> bands) ≤ inner_sum broad pts.
Proof.
  intros Hs Hn Hsep Hin. induction pts as [|p rest IH].
  - rewrite np_sum_zero; [apply Qcle_refl|]. by apply Forall_forall.
  - apply pts_sorted_cons in Hs as [Hall Hs]. apply Forall_cons in Hn as [Hp Hn].
    specialize (IH Hs Hn). destruct rest as [|q rest'].
    + rewrite np_sum_zero; [apply Qcle_refl|]. by apply Forall_forall.
    + rewrite inner_sum_cons2.
      change (np_sum
                ((λ b, (if decide (in_band b p.1 ∧ in_band b q.1) then area p q else 0)
                       + inner_sum b (q :: rest')) <$> bands)
              ≤ (if decide (in_band broad p.1 ∧ in_band broad q.1) then area p q else 0)
                + inner_sum broad (q :: rest')).
      rewrite np_sum_fmap_plus.
      apply Forall_cons in Hall as [Hpq _]. apply Forall_cons in Hn as [Hq _].
      apply Qcplus_le_compat; [|done].
      apply trapezoid_counted_once; try done. by apply area_pts_nonneg.
Qed.

Lemma registry_separated : separated EEG_BANDS.*2.
Proof.
  unfold separated. simpl.
  repeat (apply StronglySorted_cons; split);
    repeat (apply Forall_cons; split); try apply Forall_nil; try apply SSorted_nil;
    by vm_compute.
Qed.

Lemma registry_within : within (qc 1, qc 45) EEG_BANDS.*2.
Proof.
  unfold within. simpl. repeat (apply Forall_cons; split); try apply Forall_nil;
    by vm_compute.
Qed.

Lemma band_power_inner (freqs psd : list Qc) (band : Qc * Qc) :
  ascending freqs →
  band_power_of freqs psd band = inner_sum band (zip freqs psd).
Proof.
  intros Ha. unfold band_power_of, selected_bins.
  apply trapezoid_filter_inner. by apply zip_pts_sorted.
Qed.

(** On a spectrum with ascending bins and values that are not negative,
    the band powers of the five bands of the registry add up to at most
    the broadband power. *)
Lemma band_powers_sum_le (freqs psd : list Qc) :
  ascending freqs → nonnegative psd →
  np_sum ((λ b, band_power_of freqs psd b) <$> EEG_BANDS.*2)
  ≤ band_power_of freqs psd (qc 1, qc 45).
Proof.
  intros Ha Hn.
  rewrite (list_fmap_ext _ (λ b, inner_sum b (zip freqs psd)) EEG_BANDS.*2)
    by (intros; by apply band_power_inner).
  rewrite band_power_inner by done.
  apply inner_sum_bands_le.
  - by apply zip_pts_sorted.
  - by apply zip_pts_nonneg.
  - apply registry_separated.
  - apply registry_within.
Qed.

Lemma np_sum_nonneg (l : list Qc) : Forall (Qcle 0) l → 0 ≤ np_sum l.
Proof.
  unfold np_sum. induction 1 as [|v l Hv Hall IH]; [apply Qcle_refl|].
  cbn [foldr]. by apply Qcplus_nonneg_nonneg.
Qed.

Lemma relative_power_nonneg (bp total : Qc) :
  0 ≤ bp → bp ≤ total → 0 ≤ relative_power bp total.
Proof.
  intros H0 H1. destruct (Qclt_le_dec 0 total) as [Ht|Ht].
  - rewrite relative_power_pos by done. by apply ratio_unit.
  - rewrite relative_power_nonpos by done. apply Qcle_refl.
Qed.

Lemma profile_of_values (freqs psd : list Qc) :
  (profile_of freqs psd).*2
  = (λ b, relative_power (band_power_of freqs psd b)
                         (band_power_of freqs psd (qc 1, qc 45))) <$> EEG_BANDS.*2.
Proof. reflexivity. Qed.

Lemma registry_bands_bounds (freqs psd : list Qc) :
  ascending freqs → nonnegative psd →
  Forall (λ b, 0 ≤ band_power_of freqs psd b
               ∧ band_power_of freqs psd b ≤ band_power_of freqs psd (qc 1, qc 45))
         EEG_BANDS.*2.
Proof.
  intros Ha Hn. simpl.
  repeat (apply Forall_cons; split; [apply band_power_bounds; by first [done | vm_compute]|]).
  by apply Forall_nil.
Qed.

Lemma profile_of_nonneg (freqs psd : list Qc) :
  ascending freqs → nonnegative psd → Forall (Qcle 0) (profile_of freqs psd).*2.
Proof.
  intros Ha Hn. rewrite profile_of_values. apply Forall_fmap.
  eapply Forall_impl; [by apply registry_bands_bounds|].
  intros b [H0 H1]. by apply relative_power_nonneg.
Qed.

Lemma profile_of_sum_le_one (freqs psd : list Qc) :
  ascending freqs → nonnegative psd → np_sum (profile_of freqs psd).*2 ≤ 1.
Proof.
  intros Ha Hn. rewrite profile_of_values.
  set (total := band_power_of freqs psd (qc 1, qc 45)).
  destruct (Qclt_le_dec 0 total) as [Ht|Ht].
  - rewrite (list_fmap_ext _ (λ b, / total * band_power_of freqs psd b) EEG_BANDS.*2).
    2:{ intros _ b _. rewrite relative_power_pos by done. unfold Qcdiv. ring. }
    rewrite (list_fmap_compose (band_power_of freqs psd) (Qcmult (/ total))).
    change (Qcmult (/ total) <$> ?l) with (scale (/ total) l).
    rewrite np_sum_scale, Qcmult_comm.
    apply (ratio_unit _ total); [|by apply band_powers_sum_le|done].
    apply np_sum_nonneg, Forall_fmap.
    eapply Forall_impl; [by apply registry_bands_bounds|]. by intros b [H0 _].
  - rewrite np_sum_zero; [by vm_compute|].
    apply Forall_forall. intros b _. by apply relative_power_nonpos.
Qed.

(** X5.  For a channel whose filtered signal has a spectrum with ascending
    bins and values that are not negative, the five relative powers of
    the profile are not negative and add up to at most 1. *)
Theorem relative_powers_sum_at_most_one (lib : SignalLib) (signal : list Qc) (fs : Qc)
    (sig freqs psd : list Qc) :
  filter_stage lib signal fs = Ok sig →
  welch lib sig fs (2 * fs) = Ok (freqs, psd) →
  length freqs = length psd →
  ascending freqs →
  nonnegative psd →
  ∃ profile, channel_profile lib signal fs = Ok profile
             ∧ Forall (Qcle 0) profile.*2
             ∧ np_sum profile.*2 ≤ 1.
Proof.
  intros Hf Hw Hl Ha Hn. exists (profile_of freqs psd).
  split; [by eapply channel_profile_eq|].
  split; [by apply profile_of_nonneg | by apply profile_of_sum_le_one].
Qed.

Lemma sample_spectrum_ascending : ascending (SampleLib.rfftfreq 32 (qc 100)).
Proof.
  unfold ascending. repeat (apply StronglySorted_cons; split);
    repeat (apply Forall_cons; split); try apply Forall_nil; try apply SSorted_nil;
    by vm_compute.
Qed.

Lemma sample_spectrum_nonnegative :
  nonnegative ((λ v, v * v / qc 100) <$> take 17 (demean sig32)).
Proof.
  unfold nonnegative. repeat (apply Forall_cons; split); try apply Forall_nil;
    by vm_compute.
Qed.

Lemma relative_powers_sum_at_most_one_witness :
  ∃ profile, channel_profile SampleLib.lib sig32 (qc 100) = Ok profile
             ∧ Forall (Qcle 0) profile.*2
             ∧ np_sum profile.*2 ≤ 1.
Proof.
  apply (relative_powers_sum_at_most_one SampleLib.lib sig32 (qc 100) (demean sig32)
           (SampleLib.rfftfreq 32 (qc 100))
           ((λ v, v * v / qc 100) <$> take 17 (demean sig32))).
  - reflexivity.
  - reflexivity.
  - reflexivity.
  - apply sample_spectrum_ascending.
  - apply sample_spectrum_nonnegative.
Defined.

(** ** How many annotations a channel can get *)

Lemma qc_of_nat_S (n : nat) : qc (Z.of_nat (S n)) = qc (Z.of_nat n) + 1.
Proof.
  apply Qc_is_canon. unfold qc, Qc_of_Z. cbn [this Qcplus Q2Qc].
  rewrite Qred_correct, Nat2Z.inj_succ. unfold Z.succ.
  rewrite inject_Z_plus. reflexivity.
Qed.

Lemma above_threshold_weight (vs : list Qc) :
  Forall (Qcle 0) vs →
  qc (Z.of_nat (length (filter (λ v, threshold < v) vs))) * threshold ≤ np_sum vs.
Proof.
  unfold np_sum. induction 1 as [|v vs Hv Hall IH].
  - by vm_compute.
  - rewrite filter_cons. cbn [foldr]. destruct (decide (threshold < v)) as [Hlt|Hge].
    + cbn [length]. rewrite qc_of_nat_S.
      apply Qcle_trans with (qc (Z.of_nat (length (filter (λ v, threshold < v) vs)))
                             * threshold + v).
      * rewrite Qcmult_plus_distr_l, Qcmult_1_l.
        apply Qcplus_le_compat; [apply Qcle_refl|by apply Qclt_le_weak].
      * rewrite (Qcplus_comm _ v). apply Qcplus_le_compat; [apply Qcle_refl|done].
    + apply Qcle_trans with (0 + foldr Qcplus 0 vs); [by rewrite Qcplus_0_l|].
      apply Qcplus_le_compat; [done|apply Qcle_refl].
Qed.

Lemma at_most_three_above_threshold (vs : list Qc) :
  Forall (Qcle 0) vs → np_sum vs ≤ 1 →
  (length (filter (λ v, (threshold < v)%Qc) vs) ≤ 3)%nat.
Proof.
  intros Hnn Hsum. pose proof (above_threshold_weight vs Hnn) as Hw.
  destruct (decide (length (filter (λ v, (threshold < v)%Qc) vs) ≤ 3)%nat)
    as [|Hmany]; [done|].
  exfalso. apply (Qclt_not_le 1 (qc 4 * threshold)); [by vm_compute|].
  apply Qcle_trans with (np_sum vs); [|done].
  apply Qcle_trans with (qc (Z.of_nat (length (filter (λ v, threshold < v) vs))) * threshold);
    [|done].
  apply Qcmult_le_mono_nonneg_r; [by vm_compute|].
  unfold Qcle, qc, Qc_of_Z. simpl. rewrite <- Zle_Qle. lia.
Qed.

Lemma channel_events_items (ch : string) (profile : pydict Qc) :
  registry_profile profile →
  annotations [(ch, profile)]
  = ('(band, val) ← profile;
     if decide (threshold < val) then [(ch, band, regionsFor ch)] else []).
Proof.
  intros Hreg. unfold annotations. rewrite bind_cons.
  change (mbind _ []) with (@nil annotation). rewrite app_nil_r.
  rewrite (dict_items_by_keys profile
             (λ band val, if decide (threshold < val)
                          then [(ch, band, regionsFor ch)] else [])).
  - by rewrite Hreg.
  - rewrite Hreg. apply (bool_decide_unpack _). by vm_compute.
Qed.

Lemma events_count (ch : string) (profile : pydict Qc) :
  length ('(band, val) ← profile;
          if decide (threshold < val) then [(ch, band, regionsFor ch)] else [])
  = length (filter (λ v, threshold < v) profile.*2).
Proof.
  induction profile as [|[band val] rest IH]; [done|].
  rewrite bind_cons, fmap_cons, filter_cons, length_app, IH. simpl.
  by destruct (decide (threshold < val)).
Qed.

(** X6.  For a channel whose filtered signal has a spectrum with ascending
    bins and values that are not negative, at most three of the five
    bands are annotated: four relative powers above 0.3 would add up to
    more than 1. *)
Theorem at_most_three_annotations (lib : SignalLib) (signal : list Qc) (fs : Qc)
    (sig freqs psd : list Qc) (ch : string) :
  filter_stage lib signal fs = Ok sig →
  welch lib sig fs (2 * fs) = Ok (freqs, psd) →
  length freqs = length psd →
  ascending freqs →
  nonnegative psd →
  ∃ profile, channel_profile lib signal fs = Ok profile
             ∧ (length (annotations [(ch, profile)]) ≤ 3)%nat.
Proof.
  intros Hf Hw Hl Ha Hn. exists (profile_of freqs psd).
  split; [by eapply channel_profile_eq|].
  rewrite channel_events_items by reflexivity. rewrite events_count.
  apply at_most_three_above_threshold;
    [by apply profile_of_nonneg | by apply profile_of_sum_le_one].
Qed.

Lemma at_most_three_annotations_witness :
  ∃ profile, channel_profile SampleLib.lib sig32 (qc 100) = Ok profile
             ∧ (length (annotations [("C3"%string, profile)]) ≤ 3)%nat.
Proof.
  apply (at_most_three_annotations SampleLib.lib sig32 (qc 100) (demean sig32)
           (SampleLib.rfftfreq 32 (qc 100))
           ((λ v, v * v / qc 100) <$> take 17 (demean sig32)) "C3").
  - reflexivity.
  - reflexivity.
  - reflexivity.
  - apply sample_spectrum_ascending.
  - apply sample_spectrum_nonnegative.
Defined.

(** X7.  A channel whose broadband power is not positive (a flat signal) has
    an all-zero profile and is never annotated. *)
Theorem no_annotation_without_broadband_power (lib : SignalLib) (signal : list Qc)
    (fs : Qc) (sig : list Qc) (total : Qc) (ch : string) :
  filter_stage lib signal fs = Ok sig →
  bandpower lib sig fs (qc 1, qc 45) 2 = Ok total →
  total ≤ 0 →
  ∃ profile, channel_profile lib signal fs = Ok profile
             ∧ Forall (λ v, v = 0) profile.*2
             ∧ annotations [(ch, profile)] = [].
Proof.
  intros Hf Hb Ht.
  destruct (channel_profile_of_steps _ _ _ _ _ Hf Hb) as (freqs & psd & _ & _ & Htot & Hcp).
  exists (profile_of freqs psd). split; [done|].
  assert (Forall (λ v, v = 0) (profile_of freqs psd).*2) as Hzero.
  { rewrite profile_of_values. apply Forall_fmap, Forall_forall. intros b _. simpl.
    apply relative_power_nonpos. by rewrite <- Htot. }
  split; [done|].
  apply length_zero_iff_nil.
  rewrite channel_events_items by reflexivity. rewrite events_count.
  apply length_zero_iff_nil.
  induction Hzero as [|v vs -> _ IH]; [done|].
  rewrite filter_cons, decide_False; [done|]. by vm_compute.
Qed.

Lemma no_annotation_without_broadband_power_witness :
  ∃ profile, channel_profile SampleLib.lib flat32 (qc 100) = Ok profile
             ∧ Forall (λ v, v = 0) profile.*2
             ∧ annotations [("O1"%string, profile)] = [].
Proof.
  apply (no_annotation_without_broadband_power SampleLib.lib flat32 (qc 100)
           (demean flat32) 0 "O1").
  - reflexivity.
  - reflexivity.
  - by vm_compute.
Defined.

(** ** The keys of an analysis result *)

Lemma dict_keys_set {V} (k : string) (v : V) (d : pydict V) :
  dict_keys (dict_set k v d)
  = if decide (k ∈ dict_keys d) then dict_keys d else dict_keys d ++ [k].
Proof.
  unfold dict_keys. induction d as [|[k' v'] d IH]; [done|].
  cbn [dict_set]. destruct (decide (k' = k)) as [->|Hne].
  - rewrite !fmap_cons. cbn [fst]. rewrite decide_True; [done|]. apply list_elem_of_here.
  - rewrite !fmap_cons, IH. cbn [fst].
    destruct (decide (k ∈ d.*1)) as [Hin|Hout].
    + rewrite decide_True; [done|]. by apply list_elem_of_further.
    + rewrite decide_False; [done|]. apply not_elem_of_cons. split; [done|done].
Qed.

Lemma profiles_fold_keys (lib : SignalLib) (chans : list EdfChannel)
    (acc results : AnalysisResult) :
  profiles_fold lib chans acc = Ok results →
  dict_keys results = dict_keys acc ++ distinct_from (dict_keys acc) (ch_label <$> chans).
Proof.
  revert acc. induction chans as [|c chans IH]; intros acc; simpl.
  - intros [= ->]. by rewrite app_nil_r.
  - destruct (channel_profile lib (ch_samples c) (ch_fs c)) as [p|e]; [|done]. simpl.
    intros H. rewrite (IH _ H), dict_keys_set.
    destruct (decide (ch_label c ∈ dict_keys acc)); [done|].
    by rewrite <- app_assoc.
Qed.

Lemma distinct_from_NoDup (seen l : list string) :
  NoDup seen → NoDup (seen ++ distinct_from seen l).
Proof.
  revert seen. induction l as [|x l IH]; intros seen Hnd; simpl.
  - by rewrite app_nil_r.
  - destruct (decide (x ∈ seen)) as [Hin|Hout]; [by apply IH|].
    rewrite cons_middle, (assoc_L (++) seen [x]). apply IH.
    apply NoDup_app. repeat split; [done| |apply NoDup_singleton].
    intros y Hy Hyx. apply list_elem_of_singleton in Hyx as ->. done.
Qed.

Lemma distinct_from_fresh (seen l : list string) :
  NoDup l → (∀ x, x ∈ l → x ∉ seen) → distinct_from seen l = l.
Proof.
  revert seen. induction l as [|x l IH]; intros seen Hnd Hfresh; [done|]. simpl.
  apply NoDup_cons in Hnd as [Hx Hnd].
  rewrite decide_False by (apply Hfresh, list_elem_of_here).
  f_equal. apply IH; [done|]. intros y Hy Hin.
  apply elem_of_app in Hin as [Hin|Hin].
  - by apply (Hfresh y (list_elem_of_further _ _ _ Hy)).
  - apply list_elem_of_singleton in Hin as ->. done.
Qed.

(** X8.  The keys of an analysis result are the labels of the recording in
    file order, each at its first occurrence: no key occurs twice, and
    when the labels are distinct the keys are the labels. *)
Theorem analysis_keys_follow_channel_order (lib : SignalLib) (path : string) (w : world)
    (chans : list EdfChannel) (results : AnalysisResult) :
  files w !! path = Some (EdfData chans) →
  (analyze_edf lib path w).2 = Ok results →
  dict_keys results = first_occurrences (ch_label <$> chans)
  ∧ NoDup (dict_keys results)
  ∧ (NoDup (ch_label <$> chans) → dict_keys results = ch_label <$> chans).
Proof.
  intros Hp H. rewrite (analyze_edf_fold _ _ _ _ Hp) in H.
  pose proof (profiles_fold_keys _ _ _ _ H) as Hk. simpl in Hk.
  split; [done|]. split.
  - rewrite Hk. apply (distinct_from_NoDup [] _). constructor.
  - intros Hnd. rewrite Hk. apply distinct_from_fresh; [done|].
    intros x _. apply not_elem_of_nil.
Qed.

Lemma analysis_keys_follow_channel_order_witness :
  let chans := [chan_flat; chan_ok; chan_flat] in
  let w := world_with "rec.edf" chans in
  let results :=
    match (analyze_edf SampleLib.lib "rec.edf" w).2 with
    | Ok r => r
    | Raise _ => []
    end in
  dict_keys results = ["O1"; "C3"]%string
  ∧ dict_keys results = first_occurrences (ch_label <$> chans)
  ∧ NoDup (dict_keys results)
  ∧ (NoDup (ch_label <$> chans) → dict_keys results = ch_label <$> chans).
Proof.
  intros chans w results. split; [reflexivity|].
  apply (analysis_keys_follow_channel_order SampleLib.lib "rec.edf" w chans results);
    reflexivity.
Defined.

(** X9.  Every profile of an analysis result has exactly the five bands of the
    registry as keys, in the order of the registry. *)
Theorem analysis_profiles_have_registry_bands (lib : SignalLib) (path : string) (w : world)
    (results : AnalysisResult) (ch : string) (profile : pydict Qc) :
  (analyze_edf lib path w).2 = Ok results →
  (ch, profile) ∈ results →
  dict_keys profile = ["Delta"; "Theta"; "Alpha"; "Beta"; "High Beta"]%string.
Proof.
  intros H Hin. pose proof (analyze_edf_registry _ _ _ _ H) as Hreg.
  rewrite Forall_forall in Hreg. apply (Hreg profile).
  apply list_elem_of_fmap. by exists (ch, profile).
Qed.

Lemma analysis_profiles_have_registry_bands_witness :
  let w := world_with "rec.edf" [chan_ok; chan_flat] in
  let results :=
    match (analyze_edf SampleLib.lib "rec.edf" w).2 with
    | Ok r => r
    | Raise _ => []
    end in
  let profile :=
    match results !! 1%nat with
    | Some cp => cp.2
    | None => []
    end in
  dict_keys profile = ["Delta"; "Theta"; "Alpha"; "Beta"; "High Beta"]%string.
Proof.
  intros w results profile.
  apply (analysis_profiles_have_registry_bands SampleLib.lib "rec.edf" w results "O1" profile).
  - reflexivity.
  - apply (list_elem_of_lookup_2 results 1%nat). reflexivity.
Defined.

(** ** What an analysis does to the world *)

(** X10.  [analyze_edf] writes no file, and after an analysis that returns a
    result the world is as it was before the call: the reader it opened
    is closed again.  On a path that holds no readable recording it
    raises [OSError] and opens nothing. *)
Theorem analyze_edf_world (lib : SignalLib) (path : string) (w : world) :
  files (analyze_edf lib path w).1 = files w
  ∧ (is_ok (analyze_edf lib path w).2 = true → (analyze_edf lib path w).1 = w)
  ∧ ((∀ chans, files w !! path ≠ Some (EdfData chans)) →
     analyze_edf lib path w = (w, Raise OSError)).
Proof.
  unfold analyze_edf, open_edf.
  destruct (files w !! path) as [[chans|bytes]|] eqn:Hp; simpl.
  - destruct (channel_loop _ _ _ _ _ _); simpl.
    + split; [done|]. split; [|intros H; by destruct (H chans)].
      intros _. unfold close_edf. simpl. rewrite decide_True by done. by destruct w.
    + split; [done|]. split; [done|]. intros H. by destruct (H chans).
  - done.
  - done.
Qed.

(** ** The upload loop: when reports are generated, which texts are kept *)

Lemma profiles_fold_empty (lib : SignalLib) (chans : list EdfChannel) (r : AnalysisResult) :
  profiles_fold lib chans [] = Ok r → (r = [] ↔ chans = []).
Proof.
  intros H. pose proof (profiles_fold_keys _ _ _ _ H) as Hk. simpl in Hk.
  destruct chans as [|c chans].
  - simpl in H. injection H as <-. done.
  - simpl in Hk. split; [|done]. intros ->. done.
Qed.

(** X11.  When the loop over the uploads finishes: without an [.edf] file
    in the batch no report is generated, whatever documents were
    uploaded; with one, the last recording of the batch having a channel,
    the reports are generated from the result and the texts of the loop. *)
Theorem reports_need_a_recording (lib : SignalLib)
    (extract_text : string → world → result string)
    (tmpdir : string) (uploads : list upload) (w : world)
    (r : AnalysisResult) (t : pydict string) :
  (upload_loop lib extract_text tmpdir uploads [] [] w).2 = Ok (r, t) →
  (last_edf uploads = None →
   (main_reports_input lib extract_text tmpdir uploads w).2 = Ok None)
  ∧ (∀ u c chans, last_edf uploads = Some u → data u = EdfData (c :: chans) →
     r ≠ []
     ∧ (main_reports_input lib extract_text tmpdir uploads w).2 = Ok (Some (r, t))).
Proof.
  intros H. pose proof (upload_loop_last_edf _ _ _ _ _ _ _ _ _ H) as Hlast.
  assert ((main_reports_input lib extract_text tmpdir uploads w).2
          = Ok (match r with [] => None | _ => Some (r, t) end)) as ->.
  { unfold main_reports_input.
    destruct (upload_loop lib extract_text tmpdir uploads [] [] w) as [w' [[r' t']|e]];
      simpl in *; [|done].
    by injection H as -> ->. }
  split.
  - intros Hnone. rewrite Hnone in Hlast. by rewrite Hlast.
  - intros u c chans Hu Hd. rewrite Hu in Hlast. destruct Hlast as (chans' & Hd' & Ha).
    rewrite Hd in Hd'. injection Hd' as <-.
    rewrite (analyze_edf_fold lib (name u) _ (c :: chans)) in Ha
      by apply lookup_singleton_eq.
    assert (r ≠ []) as Hne.
    { intros Hr. by apply (profiles_fold_empty _ _ _ Ha) in Hr. }
    split; [done|]. by destruct r.
Qed.

(** A batch of documents only, and a batch with two recordings. *)
Lemma reports_need_a_recording_witness :
  let extract := λ (_ : string) (_ : world), Ok "x,y"%string in
  let t := [("notes.csv", "x,y")]%string in
  let r :=
    match (analyze_edf SampleLib.lib "b.edf" (world_with "b.edf" [chan_flat; chan_ok])).2 with
    | Ok r => r
    | Raise _ => []
    end in
  (main_reports_input SampleLib.lib extract "/tmp/d" [upload_notes] empty_world).2 = Ok None
  ∧ (main_reports_input SampleLib.lib extract "/tmp/d" [upload_a; upload_notes; upload_b]
       empty_world).2 = Ok (Some (r, t)).
Proof.
  intros extract t r. split.
  - apply (reports_need_a_recording SampleLib.lib extract "/tmp/d" [upload_notes]
             empty_world [] t); reflexivity.
  - apply (reports_need_a_recording SampleLib.lib extract "/tmp/d"
             [upload_a; upload_notes; upload_b] empty_world r t eq_refl)
      with (u := upload_b) (c := chan_flat) (chans := [chan_ok]); reflexivity.
Defined.

Lemma upload_loop_text_keys (lib : SignalLib) (extract_text : string → world → result string)
    (tmpdir : string) (uploads : list upload) (r0 : AnalysisResult) (t0 : pydict string)
    (w : world) (r : AnalysisResult) (t : pydict string) :
  (upload_loop lib extract_text tmpdir uploads r0 t0 w).2 = Ok (r, t) →
  dict_keys t = dict_keys t0 ++ distinct_from (dict_keys t0) (name <$> documents uploads).
Proof.
  revert r0 t0 w. induction uploads as [|file rest IH]; intros r0 t0 w H.
  - simpl in H. injection H as _ ->. by rewrite app_nil_r.
  - simpl in H. unfold documents in *. rewrite filter_cons.
    set (path := os_path_join tmpdir (name file)) in *.
    destruct (endswith (name file) ".edf") eqn:Hedf.
    + rewrite decide_False by (intros Hn; by apply Hn).
      destruct (analyze_edf lib path (write_file path (data file) w)) as [w1 [r1|e]];
        [|done].
      by apply (IH _ _ _ H).
    + rewrite decide_True by (unfold is_edf; by rewrite Hedf).
      destruct (extract_text path (write_file path (data file) w)) as [txt|e]; [|done].
      rewrite (IH _ _ _ H), dict_keys_set, fmap_cons. cbn [distinct_from].
      destruct (decide (name file ∈ dict_keys t0)); [done|].
      by rewrite <- app_assoc.
Qed.

(** X12.  When the loop over the uploads finishes, the extracted texts have one
    entry for each distinct name among the uploads that are not [.edf]
    files, in upload order (a name that occurs again keeps its place). *)
Theorem extracted_texts_keys (lib : SignalLib)
    (extract_text : string → world → result string)
    (tmpdir : string) (uploads : list upload) (w : world)
    (r : AnalysisResult) (t : pydict string) :
  (upload_loop lib extract_text tmpdir uploads [] [] w).2 = Ok (r, t) →
  dict_keys t = first_occurrences (name <$> documents uploads)
  ∧ NoDup (dict_keys t).
Proof.
  intros H. pose proof (upload_loop_text_keys _ _ _ _ _ _ _ _ _ H) as Hk. simpl in Hk.
  split; [done|]. rewrite Hk. apply (distinct_from_NoDup [] _). constructor.
Qed.

Lemma extracted_texts_keys_witness :
  let extract := λ (_ : string) (_ : world), Ok "x,y"%string in
  let uploads := [upload_notes; upload_a; upload_notes] in
  let t := [("notes.csv", "x,y")]%string in
  dict_keys t = first_occurrences (name <$> documents uploads) ∧ NoDup (dict_keys t).
Proof.
  intros extract uploads t.
  apply (extracted_texts_keys SampleLib.lib extract "/tmp/d" uploads empty_world
           (match (analyze_edf SampleLib.lib "a.edf" (world_with "a.edf" [chan_ok])).2 with
            | Ok r => r
            | Raise _ => []
            end) t).
  reflexivity.
Defined.

(** ** Charts *)

Lemma dict_get_NoDup {V} (d : pydict V) (k : string) (v : V) :
  NoDup (dict_keys d) → (k, v) ∈ d → dict_get k d = Some v.
Proof.
  unfold dict_keys. induction d as [|[k' v'] d IH]; intros Hnd Hin.
  - by apply not_elem_of_nil in Hin.
  - rewrite fmap_cons in Hnd. apply NoDup_cons in Hnd as [Hk Hnd]. cbn [dict_get].
    apply elem_of_cons in Hin as [[= -> ->]|Hin].
    + by rewrite decide_True.
    + rewrite decide_False; [by apply IH|].
      intros ->. apply Hk. apply list_elem_of_fmap. by exists (k, v).
Qed.

Lemma dict_item_get {V} (d : pydict V) (k : string) (v : V) :
  dict_get k d = Some v → dict_item k d = Ok v.
Proof. intros H. unfold dict_item. by rewrite H. Qed.

Lemma dict_item_missing {V} (d : pydict V) (k : string) :
  dict_get k d = None → dict_item k d = Raise KeyError.
Proof. intros H. unfold dict_item. by rewrite H. Qed.

Lemma band_values_items (results sub : AnalysisResult) (band : string) :
  (∀ ch profile, (ch, profile) ∈ sub →
     dict_get ch results = Some profile ∧ is_Some (dict_get band profile)) →
  ∃ vs, band_values results (dict_keys sub) band = Ok vs
        ∧ Forall2 (λ cp v, dict_get band cp.2 = Some v) sub vs.
Proof.
  unfold dict_keys. induction sub as [|[ch profile] sub IH]; intros Hsub.
  - exists []. split; [done|constructor].
  - destruct (Hsub ch profile (list_elem_of_here _ _)) as [Hget [v Hv]].
    destruct IH as (vs & Hvs & Hall).
    { intros ch' p' Hin. apply Hsub. by apply list_elem_of_further. }
    exists (v :: vs). split; [|by constructor].
    rewrite fmap_cons. change ((ch, profile).1) with ch.
    change (band_values results (ch :: sub.*1) band)
      with (profile ← dict_item ch results;
            v ← dict_item band profile;
            vs ← band_values results sub.*1 band;
            Ok (v :: vs)).
    rewrite (dict_item_get _ _ _ Hget). cbn [mbind result_bind].
    rewrite (dict_item_get _ _ _ Hv). cbn [mbind result_bind]. by rewrite Hvs.
Qed.

Lemma registry_profile_band (profile : pydict Qc) (band : string) :
  registry_profile profile → band ∈ dict_keys EEG_BANDS → is_Some (dict_get band profile).
Proof.
  unfold registry_profile. intros <-. unfold dict_keys.
  induction profile as [|[k v] d IH]; intros Hin.
  - by apply not_elem_of_nil in Hin.
  - cbn [dict_get]. destruct (decide (k = band)); [by eexists|].
    apply IH. rewrite fmap_cons in Hin. apply elem_of_cons in Hin as [->|Hin]; done.
Qed.

Lemma dict_get_None {V} (d : pydict V) (k : string) :
  k ∉ dict_keys d → dict_get k d = None.
Proof.
  unfold dict_keys. induction d as [|[k' v'] d IH]; intros Hk; [done|].
  rewrite fmap_cons in Hk. apply not_elem_of_cons in Hk as [Hne Hk].
  cbn [dict_get]. rewrite decide_False by done. by apply IH.
Qed.

Lemma analysis_keys_NoDup (lib : SignalLib) (path : string) (w : world)
    (results : AnalysisResult) :
  (analyze_edf lib path w).2 = Ok results → NoDup (dict_keys results).
Proof.
  intros H. destruct (files w !! path) as [[chans|bytes]|] eqn:Hp.
  - rewrite (analyze_edf_fold _ _ _ _ Hp) in H.
    rewrite (profiles_fold_keys _ _ _ _ H). apply (distinct_from_NoDup [] _). constructor.
  - unfold analyze_edf, open_edf in H. by rewrite Hp in H.
  - unfold analyze_edf, open_edf in H. by rewrite Hp in H.
Qed.

Lemma band_values_of_analysis (lib : SignalLib) (path : string) (w : world)
    (results : AnalysisResult) (band : string) :
  (analyze_edf lib path w).2 = Ok results →
  band ∈ dict_keys EEG_BANDS →
  ∃ vs, band_values results (dict_keys results) band = Ok vs
        ∧ Forall2 (λ cp v, dict_get band cp.2 = Some v) results vs.
Proof.
  intros H Hband. pose proof (analyze_edf_registry _ _ _ _ H) as Hreg.
  pose proof (analysis_keys_NoDup _ _ _ _ H) as Hnd.
  rewrite Forall_forall in Hreg. apply band_values_items.
  intros ch profile Hin. split; [by apply dict_get_NoDup|].
  apply registry_profile_band; [|done]. apply Hreg.
  apply list_elem_of_fmap. by exists (ch, profile).
Qed.

(** X13.  The chart of a band of the registry over an analysis result: one bar
    and one tick per channel of the result, in its order, the bar as high
    as the relative power of the band in that channel.  For a band that is
    not in the registry the chart of a result with at least one channel
    raises [KeyError]. *)
Theorem headmap_of_analysis (lib : SignalLib) (path : string) (w : world)
    (results : AnalysisResult) (band save_path : string) :
  (analyze_edf lib path w).2 = Ok results →
  (band ∈ dict_keys EEG_BANDS →
   ∃ fig values,
     generate_headmap results band save_path = Ok fig
     ∧ Forall2 (λ cp v, dict_get band cp.2 = Some v) results values
     ∧ fig_bars fig = zip (seq 0 (length results)) values
     ∧ fig_xticks fig = zip (seq 0 (length results)) (dict_keys results)
     ∧ fig_path fig = save_path)
  ∧ (band ∉ dict_keys EEG_BANDS → results ≠ [] →
     generate_headmap results band save_path = Raise KeyError).
Proof.
  intros H. pose proof (analyze_edf_registry _ _ _ _ H) as Hreg.
  rewrite Forall_forall in Hreg. split.
  - intros Hband.
    destruct (band_values_of_analysis lib path w results band H Hband) as (vs & Hvs & Hall).
    unfold generate_headmap. rewrite Hvs. cbn [mbind result_bind].
    eexists. exists vs. split; [done|]. split; [done|].
    cbn [fig_bars fig_xticks fig_path].
    by rewrite <- (Forall2_length _ _ _ Hall).
  - intros Hband Hne. destruct results as [|[ch profile] rest]; [done|].
    unfold generate_headmap, dict_keys. rewrite fmap_cons. change ((ch, profile).1) with ch.
    change (band_values ((ch, profile) :: rest) (ch :: rest.*1) band)
      with (p ← dict_item ch ((ch, profile) :: rest);
            v ← dict_item band p;
            vs ← band_values ((ch, profile) :: rest) rest.*1 band;
            Ok (v :: vs)).
    rewrite (dict_item_get _ ch profile) by (cbn [dict_get]; by rewrite decide_True).
    cbn [mbind result_bind].
    rewrite (dict_item_missing profile band); [done|].
    apply dict_get_None. rewrite (Hreg profile); [done|].
    apply list_elem_of_fmap. exists (ch, profile).
    split; [done|apply list_elem_of_here].
Qed.

Lemma headmap_of_analysis_witness :
  let w := world_with "rec.edf" [chan_ok; chan_flat] in
  let results :=
    match (analyze_edf SampleLib.lib "rec.edf" w).2 with
    | Ok r => r
    | Raise _ => []
    end in
  ("Beta"%string ∈ dict_keys EEG_BANDS →
   ∃ fig values,
     generate_headmap results "Beta" "/tmp/d/Beta_map.png" = Ok fig
     ∧ Forall2 (λ cp v, dict_get "Beta" cp.2 = Some v) results values
     ∧ fig_bars fig = zip (seq 0 (length results)) values
     ∧ fig_xticks fig = zip (seq 0 (length results)) (dict_keys results)
     ∧ fig_path fig = "/tmp/d/Beta_map.png"%string)
  ∧ ("Beta"%string ∉ dict_keys EEG_BANDS → results ≠ [] →
     generate_headmap results "Beta" "/tmp/d/Beta_map.png" = Raise KeyError).
Proof.
  intros w results.
  apply (headmap_of_analysis SampleLib.lib "rec.edf" w results "Beta" "/tmp/d/Beta_map.png").
  reflexivity.
Defined.

Lemma string_app_assoc (a b c : string) : (a +:+ b) +:+ c = a +:+ b +:+ c.
Proof.
  induction a as [|x a IH]; [done|].
  change (String x ((a +:+ b) +:+ c) = String x (a +:+ b +:+ c)). by f_equal.
Qed.

Lemma os_path_join_relative (dir n : string) :
  startswith n "/" = false → os_path_join dir n = path_prefix dir +:+ n.
Proof.
  intros H. unfold os_path_join, path_prefix. rewrite H.
  destruct (String.eqb dir EmptyString || endswith dir "/"); [done|].
  by rewrite string_app_assoc.
Qed.

Lemma headmap_loop_registry (results : AnalysisResult) (output_dir : string)
    (bands : list string) :
  (∀ band, band ∈ bands → ∀ save_path,
     ∃ fig, generate_headmap results band save_path = Ok fig
            ∧ fig_title fig = band +:+ " Distribution" ∧ fig_path fig = save_path) →
  ∃ figs, headmap_loop results output_dir bands = Ok figs
          ∧ fig_title <$> figs = (λ band, band +:+ " Distribution") <$> bands
          ∧ fig_path <$> figs
            = (λ band, os_path_join output_dir (band +:+ "_map.png")) <$> bands.
Proof.
  induction bands as [|band rest IH]; intros Hall.
  - by exists [].
  - destruct (Hall band (list_elem_of_here _ _)
                (os_path_join output_dir (band +:+ "_map.png"))) as (fig & Hfig & Ht & Hp).
    destruct IH as (figs & Hfigs & Hts & Hps).
    { intros b Hb. apply Hall. by apply list_elem_of_further. }
    exists (fig :: figs). cbn [headmap_loop]. rewrite Hfig. cbn [mbind result_bind].
    rewrite Hfigs. cbn [mbind result_bind]. rewrite !fmap_cons, Ht, Hp, Hts, Hps. done.
Qed.

(** X14.  For an analysis result the chart loop of [generate_reports] raises
    nothing and draws five charts, one for each band in the order of the
    registry, saved under [output_dir] at five different paths. *)
Theorem headmap_loop_of_analysis (lib : SignalLib) (path : string) (w : world)
    (results : AnalysisResult) (output_dir : string) :
  (analyze_edf lib path w).2 = Ok results →
  ∃ figs,
    headmap_loop results output_dir (dict_keys EEG_BANDS) = Ok figs
    ∧ fig_title <$> figs
      = ["Delta Distribution"; "Theta Distribution"; "Alpha Distribution";
         "Beta Distribution"; "High Beta Distribution"]%string
    ∧ fig_path <$> figs
      = os_path_join output_dir
          <$> ["Delta_map.png"; "Theta_map.png"; "Alpha_map.png";
               "Beta_map.png"; "High Beta_map.png"]%string
    ∧ NoDup (fig_path <$> figs).
Proof.
  intros H.
  destruct (headmap_loop_registry results output_dir (dict_keys EEG_BANDS))
    as (figs & Hfigs & Ht & Hp).
  { intros band Hband save_path.
    destruct (band_values_of_analysis lib path w results band H Hband) as (vs & Hvs & _).
    unfold generate_headmap. rewrite Hvs. cbn [mbind result_bind]. by eexists. }
  exists figs. split; [done|]. split; [by rewrite Ht|].
  assert (fig_path <$> figs
          = os_path_join output_dir
              <$> ["Delta_map.png"; "Theta_map.png"; "Alpha_map.png";
                   "Beta_map.png"; "High Beta_map.png"]%string) as Hpaths
    by (by rewrite Hp).
  split; [done|]. rewrite Hpaths.
  rewrite (list_fmap_ext _ (λ n, path_prefix output_dir +:+ n)).
  - apply (NoDup_fmap_2 (String.append (path_prefix output_dir))).
    apply (bool_decide_unpack _). by vm_compute.
  - intros i n Hn. apply os_path_join_relative.
    do 5 (destruct i as [|i]; [by injection Hn as <-|]). done.
Qed.

Lemma headmap_loop_of_analysis_witness :
  let w := world_with "rec.edf" [chan_ok; chan_flat] in
  let results :=
    match (analyze_edf SampleLib.lib "rec.edf" w).2 with
    | Ok r => r
    | Raise _ => []
    end in
  ∃ figs,
    headmap_loop results "/tmp/d" (dict_keys EEG_BANDS) = Ok figs
    ∧ fig_title <$> figs
      = ["Delta Distribution"; "Theta Distribution"; "Alpha Distribution";
         "Beta Distribution"; "High Beta Distribution"]%string
    ∧ fig_path <$> figs
      = os_path_join "/tmp/d"
          <$> ["Delta_map.png"; "Theta_map.png"; "Alpha_map.png";
               "Beta_map.png"; "High Beta_map.png"]%string
    ∧ NoDup (fig_path <$> figs).
Proof.
  intros w results.
  apply (headmap_loop_of_analysis SampleLib.lib "rec.edf" w results "/tmp/d").
  reflexivity.
Defined.

(** ** Suffixes of names and paths *)

Lemma string_length_app (a b : string) :
  String.length (a +:+ b) = (String.length a + String.length b)%nat.
Proof.
  induction a as [|c a IH]; [done|].
  change (S (String.length (a +:+ b)) = S (String.length a + String.length b)).
  by rewrite IH.
Qed.

Lemma substring_whole (s : string) : String.substring 0 (String.length s) s = s.
Proof. induction s as [|c s IH]; [done|]. simpl. by rewrite IH. Qed.

Lemma substring_app_r (pre suf : string) :
  String.substring (String.length pre) (String.length suf) (pre +:+ suf) = suf.
Proof.
  induction pre as [|c pre IH]; [apply substring_whole|].
  change (String.substring (String.length pre) (String.length suf) (pre +:+ suf) = suf).
  exact IH.
Qed.

Lemma substring_split (s : string) (n : nat) :
  (n ≤ String.length s)%nat →
  s = String.substring 0 n s +:+ String.substring n (String.length s - n) s.
Proof.
  revert n. induction s as [|c s IH]; intros n Hn.
  - simpl in Hn. by replace n with 0%nat by lia.
  - destruct n as [|n].
    + cbn [String.substring]. rewrite Nat.sub_0_r.
      change (String.length (String c s)) with (S (String.length s)).
      cbn [String.substring]. by rewrite substring_whole.
    + simpl in Hn.
      change (String c s
              = String c (String.substring 0 n s
                          +:+ String.substring n (String.length s - n) s)).
      f_equal. apply IH. lia.
Qed.

Lemma endswith_iff (s suffix : string) :
  endswith s suffix = true ↔ ∃ pre, s = pre +:+ suffix.
Proof.
  unfold endswith. rewrite andb_true_iff, bool_decide_eq_true, String.eqb_eq. split.
  - intros [Hlen Hsub]. exists (String.substring 0 (String.length s - String.length suffix) s).
    pose proof (substring_split s (String.length s - String.length suffix)) as Hsplit.
    replace (String.length s - (String.length s - String.length suffix))%nat
      with (String.length suffix) in Hsplit by lia.
    rewrite Hsub in Hsplit. apply Hsplit. lia.
  - intros [pre ->]. rewrite string_length_app. split; [lia|].
    replace (String.length pre + String.length suffix - String.length suffix)%nat
      with (String.length pre) by lia.
    apply substring_app_r.
Qed.

(** Two suffixes of one string: the shorter is a suffix of the longer. *)
Lemma endswith_both (s a b : string) :
  endswith s a = true → endswith s b = true →
  (String.length a ≤ String.length b)%nat → endswith b a = true.
Proof.
  rewrite !endswith_iff. intros [p1 ->] [p2 H] Hlen. revert p1 H.
  induction p2 as [|c p2 IH]; intros p1 H.
  - exists p1. symmetry. exact H.
  - destruct p1 as [|c1 p1].
    + exfalso. apply (f_equal String.length) in H.
      change (String.length a = S (String.length (p2 +:+ b))) in H.
      rewrite string_length_app in H. lia.
    + change (String c1 (p1 +:+ a) = String c (p2 +:+ b)) in H.
      injection H as _ H. by apply (IH p1).
Qed.

Lemma str_lower_app (a b : string) : str_lower (a +:+ b) = str_lower a +:+ str_lower b.
Proof.
  induction a as [|c a IH]; [done|].
  change (String (ascii_lower c) (str_lower (a +:+ b))
          = String (ascii_lower c) (str_lower a +:+ str_lower b)).
  by rewrite IH.
Qed.

Lemma endswith_lower (s suffix : string) :
  str_lower suffix = suffix →
  endswith s suffix = true → endswith (str_lower s) suffix = true.
Proof.
  intros Hlow. rewrite !endswith_iff. intros [pre ->].
  exists (str_lower pre). by rewrite str_lower_app, Hlow.
Qed.

(** A string ends with at most one of two suffixes of which neither ends
    with the other. *)
Lemma endswith_exclusive (s a b : string) :
  endswith a b = false → endswith b a = false →
  endswith s a = true → endswith s b = false.
Proof.
  intros Hab Hba Ha. destruct (endswith s b) eqn:Hb; [|done].
  destruct (Nat.le_ge_cases (String.length a) (String.length b)) as [Hle|Hle].
  - by rewrite (endswith_both s a b Ha Hb Hle) in Hba.
  - by rewrite (endswith_both s b a Hb Ha Hle) in Hab.
Qed.

(** ** [extract_text]: which reader a path gets *)

Lemma lowered_suffix_excludes (p a b : string) :
  str_lower b = b →
  endswith a b = false → endswith b a = false →
  endswith (str_lower p) a = true → endswith p b = false.
Proof.
  intros Hlow Hab Hba Ha. destruct (endswith p b) eqn:Hb; [|done].
  apply (endswith_lower _ _ Hlow) in Hb.
  by rewrite (endswith_exclusive _ a b Hab Hba Ha) in Hb.
Qed.

(** X15.  The image suffixes are matched in any case: a path that ends with
    [.png], [.jpg] or [.jpeg] once lowered (for example [SCAN.PNG]) goes to
    the OCR reader, and its text is the recognised pieces joined by single
    spaces. *)
Theorem extract_text_image_any_case (rd : DocReaders) (file_path : string) (w : world) :
  endswith (str_lower file_path) ".png"
  || endswith (str_lower file_path) ".jpg"
  || endswith (str_lower file_path) ".jpeg" = true →
  extract_text rd file_path w = String.concat " " <$> ocr_readtext rd file_path w.
Proof.
  intros Himg. unfold extract_text. rewrite Himg.
  assert (endswith file_path ".pdf" = false ∧ endswith file_path ".docx" = false
          ∧ endswith file_path ".csv" = false) as (-> & -> & ->).
  { apply orb_true_iff in Himg as [Himg|Hjpeg];
      [apply orb_true_iff in Himg as [Hpng|Hjpg]|];
      repeat split; eapply lowered_suffix_excludes; try eassumption; reflexivity. }
  by destruct (ocr_readtext rd file_path w).
Qed.

Lemma extract_text_image_any_case_witness :
  extract_text sample_readers "/tmp/d/SCAN.PNG" empty_world = Ok "scanned words"%string.
Proof.
  apply (extract_text_image_any_case sample_readers "/tmp/d/SCAN.PNG" empty_world).
  reflexivity.
Defined.

Lemma extract_text_unmatched (rd : DocReaders) (file_path : string) (w : world) :
  endswith file_path ".pdf" = false →
  endswith file_path ".docx" = false →
  endswith file_path ".csv" = false →
  endswith (str_lower file_path) ".png" = false →
  endswith (str_lower file_path) ".jpg" = false →
  endswith (str_lower file_path) ".jpeg" = false →
  extract_text rd file_path w = Ok EmptyString.
Proof. intros H1 H2 H3 H4 H5 H6. unfold extract_text. by rewrite H1, H2, H3, H4, H5, H6. Qed.

(** X16.  The suffixes [.pdf], [.docx] and [.csv] are matched in lower case
    only: a path that ends with one of them in any other case (for
    example [REPORT.PDF]) is read by no reader and yields the empty text.
    So does a path that ends with [.edf] in any case. *)
Theorem extract_text_other_case_empty (rd : DocReaders) (file_path suffix : string)
    (w : world) :
  suffix ∈ [".pdf"; ".docx"; ".csv"; ".edf"]%string →
  endswith (str_lower file_path) suffix = true →
  endswith file_path suffix = false ∨ suffix = ".edf"%string →
  extract_text rd file_path w = Ok EmptyString.
Proof.
  intros Hsuf Hlow Hcase.
  assert (∀ other, other ∈ [".pdf"; ".docx"; ".csv"]%string →
            other ≠ suffix → endswith file_path other = false) as Hother.
  { intros other Ho Hne.
    repeat (apply elem_of_cons in Hsuf as [->|Hsuf]);
      [| | | |by apply not_elem_of_nil in Hsuf];
      repeat (apply elem_of_cons in Ho as [->|Ho]);
      try (by apply not_elem_of_nil in Ho); try done;
      eapply lowered_suffix_excludes; try eassumption; reflexivity. }
  assert (∀ other, other ∈ [".pdf"; ".docx"; ".csv"]%string →
            endswith file_path other = false) as Hnone.
  { intros other Ho. destruct (decide (other = suffix)) as [->|Hne]; [|by apply Hother].
    destruct Hcase as [Hcase| ->]; [done|].
    repeat (apply elem_of_cons in Ho as [Ho|Ho]); try done.
    by apply not_elem_of_nil in Ho. }
  apply extract_text_unmatched;
    try (apply Hnone; apply list_elem_of_In; simpl; tauto);
    repeat (apply elem_of_cons in Hsuf as [->|Hsuf]);
    try (by apply not_elem_of_nil in Hsuf);
    eapply endswith_exclusive; try eassumption; reflexivity.
Qed.

Lemma extract_text_other_case_empty_witness :
  extract_text sample_readers "/tmp/d/REPORT.PDF" empty_world = Ok EmptyString.
Proof.
  apply (extract_text_other_case_empty sample_readers "/tmp/d/REPORT.PDF" ".pdf" empty_world).
  - apply list_elem_of_here.
  - reflexivity.
  - left. reflexivity.
Defined.

(** ** Recordings whose name is not in lower case *)

Lemma os_path_join_endswith (dir n suffix : string) :
  endswith n suffix = true → endswith (os_path_join dir n) suffix = true.
Proof.
  rewrite !endswith_iff. intros [pre ->]. unfold os_path_join.
  destruct (startswith (pre +:+ suffix) "/"); [by exists pre|].
  destruct (String.eqb dir EmptyString || endswith dir "/").
  - exists (dir +:+ pre). by rewrite string_app_assoc.
  - exists (dir +:+ "/" +:+ pre). by rewrite !string_app_assoc.
Qed.

Lemma str_lower_path (dir n suffix : string) :
  endswith (str_lower n) suffix = true →
  endswith (str_lower (os_path_join dir n)) suffix = true.
Proof.
  rewrite !endswith_iff. intros [pre H]. unfold os_path_join.
  destruct (startswith n "/"); [by exists pre|].
  destruct (String.eqb dir EmptyString || endswith dir "/").
  - exists (str_lower dir +:+ pre). by rewrite str_lower_app, H, string_app_assoc.
  - exists (str_lower dir +:+ "/" +:+ pre).
    by rewrite !str_lower_app, H, !string_app_assoc.
Qed.

(** X17.  An upload whose name ends with [.edf] in another case than lower case
    (for example [REC.EDF]) is not analysed: the loop writes the file,
    stores the empty text under its name and leaves the analysis result
    as it was. *)
Theorem recording_in_other_case_is_a_document (lib : SignalLib) (rd : DocReaders)
    (tmpdir : string) (u : upload) (rest : list upload)
    (r0 : AnalysisResult) (t0 : pydict string) (w : world) :
  endswith (str_lower (name u)) ".edf" = true →
  endswith (name u) ".edf" = false →
  upload_loop lib (extract_text rd) tmpdir (u :: rest) r0 t0 w
  = upload_loop lib (extract_text rd) tmpdir rest r0
      (dict_set (name u) EmptyString t0)
      (write_file (os_path_join tmpdir (name u)) (data u) w).
Proof.
  intros Hlow Hexact. cbn [upload_loop]. rewrite Hexact.
  pose proof (str_lower_path tmpdir (name u) ".edf" Hlow) as Hpath.
  rewrite extract_text_unmatched; [done|..].
  - by apply (lowered_suffix_excludes _ ".edf" ".pdf").
  - by apply (lowered_suffix_excludes _ ".edf" ".docx").
  - by apply (lowered_suffix_excludes _ ".edf" ".csv").
  - by apply (endswith_exclusive _ ".edf" ".png").
  - by apply (endswith_exclusive _ ".edf" ".jpg").
  - by apply (endswith_exclusive _ ".edf" ".jpeg").
Qed.

Lemma recording_in_other_case_is_a_document_witness :
  let u := {| name := "REC.EDF"; data := EdfData [chan_ok] |} in
  (upload_loop SampleLib.lib (extract_text sample_readers) "/tmp/d" [u] [] [] empty_world).2
  = Ok ([], [("REC.EDF", EmptyString)]%string).
Proof.
  intros u.
  rewrite (recording_in_other_case_is_a_document SampleLib.lib sample_readers "/tmp/d" u
             [] [] [] empty_world); reflexivity.
Defined.

(** ** The text of a document *)

Lemma string_app_empty_r (s : string) : s +:+ EmptyString = s.
Proof.
  induction s as [|c s IH]; [done|].
  change (String c (s +:+ EmptyString) = String c s). by rewrite IH.
Qed.

Lemma concat_empty_cons (x : string) (l : list string) :
  String.concat EmptyString (x :: l) = x +:+ String.concat EmptyString l.
Proof. destruct l as [|y l]; [by rewrite string_app_empty_r|done]. Qed.

Lemma foldl_append_concat {A} (f : A → string) (acc : string) (l : list A) :
  foldl (λ text a, text +:+ f a) acc l = acc +:+ String.concat EmptyString (f <$> l).
Proof.
  revert acc. induction l as [|a l IH]; intros acc.
  - by rewrite string_app_empty_r.
  - rewrite fmap_cons, concat_empty_cons. cbn [foldl]. rewrite IH.
    by rewrite string_app_assoc.
Qed.

(** X18.  A document is read by the reader of its name's suffix, whatever the
    directory it was written to.  The text of a PDF is the texts of its
    pages put together with nothing between them, a page without text
    adding nothing; the text of a Word document is its paragraphs, each
    followed by a line feed; the text of a CSV file is the printed table. *)
Theorem document_text_by_name (rd : DocReaders) (dir n : string) (w : world) :
  let path := os_path_join dir n in
  (endswith n ".pdf" = true →
   extract_text rd path w
   = (λ pages, String.concat EmptyString (default EmptyString <$> pages))
       <$> pdf_pages rd path w)
  ∧ (endswith n ".docx" = true →
     extract_text rd path w
     = (λ paras, String.concat EmptyString ((λ para, para +:+ newline) <$> paras))
         <$> docx_paragraphs rd path w)
  ∧ (endswith n ".csv" = true → extract_text rd path w = csv_to_string rd path w).
Proof.
  intros path. unfold extract_text. repeat split; intros Hn;
    pose proof (os_path_join_endswith dir n _ Hn) as Hp; fold path in Hp.
  - rewrite Hp. destruct (pdf_pages rd path w) as [pages|e]; [|done].
    cbn [mbind result_bind fmap result_fmap]. by rewrite foldl_append_concat.
  - rewrite (endswith_exclusive path ".docx" ".pdf" eq_refl eq_refl Hp), Hp.
    destruct (docx_paragraphs rd path w) as [paras|e]; [|done].
    cbn [mbind result_bind fmap result_fmap].
    by rewrite (foldl_append_concat (λ para, para +:+ newline)).
  - rewrite (endswith_exclusive path ".csv" ".pdf" eq_refl eq_refl Hp),
      (endswith_exclusive path ".csv" ".docx" eq_refl eq_refl Hp), Hp. done.
Qed.

Lemma document_text_by_name_witness :
  extract_text sample_readers "/tmp/d/report.pdf" empty_world
  = Ok "page onepage three"%string
  ∧ extract_text sample_readers "/tmp/d/form.docx" empty_world
    = Ok ("first" +:+ newline +:+ "second" +:+ newline)%string.
Proof.
  destruct (document_text_by_name sample_readers "/tmp/d" "report.pdf" empty_world)
    as (Hpdf & _ & _).
  destruct (document_text_by_name sample_readers "/tmp/d" "form.docx" empty_world)
    as (_ & Hdocx & _).
  split; [exact (Hpdf eq_refl)|exact (Hdocx eq_refl)].
Defined.

Lemma analyze_edf_world_witness :
  (analyze_edf SampleLib.lib "rec.edf" (world_with "rec.edf" [chan_ok])).1
  = world_with "rec.edf" [chan_ok]
  ∧ analyze_edf SampleLib.lib "notes.csv" (world_with "rec.edf" [chan_ok])
    = (world_with "rec.edf" [chan_ok], Raise OSError).
Proof.
  destruct (analyze_edf_world SampleLib.lib "rec.edf" (world_with "rec.edf" [chan_ok]))
    as (_ & Hok & _).
  destruct (analyze_edf_world SampleLib.lib "notes.csv" (world_with "rec.edf" [chan_ok]))
    as (_ & _ & Hbad).
  split; [exact (Hok eq_refl)|].
  apply Hbad. intros chans H. vm_compute in H. discriminate H.
Defined.
